(** * hyper-serp: the search view and its API client

    A shallow embedding of [frontend/src/api.js] (the API client,
    [searchQuery]) and of [frontend/src/App.jsx] (the search view: its four
    [useState] cells, the window [keydown] listener, [handleSearch] and the
    conditional rendering of the result area), followed by the properties
    the specification states about them.

    JavaScript values are modelled after evaluation: strings are sequences
    of UTF-16 code units, a parsed JSON body is a [JsValue], an abrupt
    completion ([throw], a rejected [await]) is the [Throw] case of
    [Completion], and the settlement of the promise of an [async] function
    is a [Promise]. *)

From stdpp Require Import base list strings relations numbers.
From Stdlib Require Import Floats.PrimFloat.
#[local] Set Warnings "-register-all".

#[local] Open Scope N_scope.

(** ** JavaScript strings *)

(** A JavaScript string is a finite sequence of 16-bit code units. *)
Abbreviation jsstring := (list N).

Definition wf_jsstring (s : jsstring) : Prop := Forall (λ c, c < 65536) s.

(** The code units of an ASCII literal of the source. *)
Definition lit (s : string) : jsstring :=
  Ascii.N_of_ascii <$> String.list_ascii_of_string s.

Definition jsstring_eqb (a b : jsstring) : bool := bool_decide (a = b).

(** ** JavaScript values *)

Inductive JsValue :=
| JUndefined
| JNull
| JBool (b : bool)
| JNum (f : float)
| JStr (s : jsstring)
| JArr (items : list JsValue)
| JObj (fields : list (jsstring * JsValue)).

(** [ToBoolean]: [undefined], [null], [false], [+0], [-0], [NaN] and the
    empty string are falsy, every object (arrays included) is truthy. *)
Definition truthy (v : JsValue) : bool :=
  match v with
  | JUndefined | JNull => false
  | JBool b => b
  | JNum f => negb (PrimFloat.eqb f 0%float || negb (PrimFloat.eqb f f))
  | JStr s => negb (bool_decide (s = []))
  | JArr _ | JObj _ => true
  end.

(** [a || b] *)
Definition js_or (a b : JsValue) : JsValue := if truthy a then a else b.

(** [Array.isArray(v)] *)
Definition isArray (v : JsValue) : bool :=
  match v with JArr _ => true | _ => false end.

(** ** Completions and promises *)

Inductive JsError :=
| TypeError
| URIError
| SyntaxError
| NetworkError
| Error (message : string).

Inductive Completion (A : Type) :=
| Normal (v : A)
| Throw (e : JsError).
Arguments Normal {A} v.
Arguments Throw {A} e.

#[global] Instance Completion_ret : MRet Completion := λ A, Normal.
#[global] Instance Completion_bind : MBind Completion := λ A B k c,
  match c with
  | Normal v => k v
  | Throw e => Throw e
  end.

(** How the promise returned by an [async] function settles. *)
Inductive Promise (A : Type) :=
| Resolved (v : A)
| Rejected (e : JsError).
Arguments Resolved {A} v.
Arguments Rejected {A} e.

(** The value of an own property of an object, [None] when it has none of
    that name. *)
Fixpoint own_property (k : jsstring) (fields : list (jsstring * JsValue)) : option JsValue :=
  match fields with
  | [] => None
  | (k', v) :: rest => if jsstring_eqb k k' then Some v else own_property k rest
  end.

(** [v.results]: reading a property of [undefined] or [null] throws a
    [TypeError]; an object yields its [results] property, [undefined] when
    it has none; booleans, numbers, strings and arrays have no property of
    that name, neither of their own nor on their prototypes. *)
Definition get_results (v : JsValue) : Completion JsValue :=
  match v with
  | JUndefined | JNull => Throw TypeError
  | JObj fields => Normal (default JUndefined (own_property (lit "results") fields))
  | JBool _ | JNum _ | JStr _ | JArr _ => Normal JUndefined
  end.

(** What [data.results || []] is for a parsed body. *)
Definition results_or_empty (data : JsValue) : JsValue :=
  match data with
  | JObj fields =>
      match own_property (lit "results") fields with
      | Some r => if truthy r then r else JArr []
      | None => JArr []
      end
  | _ => JArr []
  end.

(** ** [encodeURIComponent] (ECMAScript [Encode] with the unreserved set) *)

Definition is_alpha (c : N) : bool :=
  (65 <=? c) && (c <=? 90) || (97 <=? c) && (c <=? 122).

Definition is_digit (c : N) : bool := (48 <=? c) && (c <=? 57).

(** uriMark: [- _ . ! ~ * ' ( )] *)
Definition is_mark (c : N) : bool :=
  (c =? 45) || (c =? 95) || (c =? 46) || (c =? 33) || (c =? 126)
  || (c =? 42) || (c =? 39) || (c =? 40) || (c =? 41).

Definition is_unescaped (c : N) : bool := is_alpha c || is_digit c || is_mark c.

Definition is_lead_surrogate (c : N) : bool := (0xD800 <=? c) && (c <=? 0xDBFF).
Definition is_trail_surrogate (c : N) : bool := (0xDC00 <=? c) && (c <=? 0xDFFF).

(** [UTF16SurrogatePairToCodePoint] *)
Definition surrogate_pair_to_code_point (lead trail : N) : N :=
  (lead - 0xD800) * 0x400 + (trail - 0xDC00) + 0x10000.

(** The UTF-8 transformation of a code point. *)
Definition utf8_encode (cp : N) : list N :=
  if cp <? 0x80 then [cp]
  else if cp <? 0x800 then [0xC0 + cp / 64; 0x80 + cp `mod` 64]
  else if cp <? 0x10000 then
    [0xE0 + cp / 4096; 0x80 + (cp / 64) `mod` 64; 0x80 + cp `mod` 64]
  else
    [0xF0 + cp / 262144; 0x80 + (cp / 4096) `mod` 64;
     0x80 + (cp / 64) `mod` 64; 0x80 + cp `mod` 64].

(** Upper-case hexadecimal digit of a value below 16. *)
Definition hex_digit (d : N) : N := if d <? 10 then 48 + d else 55 + d.

(** ["%XY"] for one octet. *)
Definition percent_octet (b : N) : jsstring :=
  [37; hex_digit (b / 16); hex_digit (b `mod` 16)].

Definition percent_encode (octets : list N) : jsstring :=
  octets ≫= percent_octet.

(** [Encode(string, unescapedSet)]: an unescaped code unit is copied; any
    other is read as a code point ([CodePointAt]), an unpaired surrogate
    throws a [URIError], and the octets of the code point are escaped. *)
Fixpoint encodeURIComponent (s : jsstring) : Completion jsstring :=
  match s with
  | [] => Normal []
  | c :: rest =>
      if is_unescaped c then r ← encodeURIComponent rest; Normal (c :: r)
      else if is_lead_surrogate c then
        match rest with
        | d :: rest' =>
            if is_trail_surrogate d then
              r ← encodeURIComponent rest';
              Normal (percent_encode
                        (utf8_encode (surrogate_pair_to_code_point c d)) ++ r)
            else Throw URIError
        | [] => Throw URIError
        end
      else if is_trail_surrogate c then Throw URIError
      else r ← encodeURIComponent rest;
           Normal (percent_encode (utf8_encode c) ++ r)
  end.

(** Unicode scalar values: code points that are not surrogates. *)
Definition is_scalar (cp : N) : Prop :=
  cp < 0xD800 ∨ 0xDFFF < cp ≤ 0x10FFFF.

(** The code units [encodeURIComponent] writes: unreserved ones and [%]. *)
Definition is_uri_safe (c : N) : Prop := is_unescaped c = true ∨ c = 37.

(** [String.prototype.isWellFormed]: no surrogate without its partner. *)
Fixpoint isWellFormed (s : jsstring) : bool :=
  match s with
  | [] => true
  | c :: rest =>
      if is_lead_surrogate c then
        match rest with
        | d :: rest' => is_trail_surrogate d && isWellFormed rest'
        | [] => false
        end
      else negb (is_trail_surrogate c) && isWellFormed rest
  end.

(** ** The API client: [frontend/src/api.js] *)

(** What the environment answers to a [fetch]: the promise rejects (network
    failure), or it resolves with a response carrying a status and a body;
    [body] is the value [res.json()] parses, [None] when the body is not
    valid JSON and [res.json()] rejects. *)
Inductive FetchOutcome :=
| FetchRejected
| FetchResponse (status : Z) (body : option JsValue).

(** [res.ok] *)
Definition response_ok (status : Z) : bool :=
  ((200 <=? status) && (status <=? 299))%Z.

Section api.
(** [const API_BASE = import.meta.env.VITE_API_URL]: a string fixed at
    build time, or [undefined] when the variable is not set. *)
Variable API_BASE : option jsstring.

(** [`${API_BASE}`] *)
Definition API_BASE_text : jsstring :=
  match API_BASE with
  | Some s => s
  | None => lit "undefined"
  end.

(** The argument of [fetch] on line 8. *)
Definition request_url (query : jsstring) : Completion jsstring :=
  enc ← encodeURIComponent query;
  Normal (API_BASE_text ++ lit "/search?q=" ++ enc).

(** [await fetch(url)] *)
Definition await_fetch (o : FetchOutcome) : Completion (Z * option JsValue) :=
  match o with
  | FetchRejected => Throw NetworkError
  | FetchResponse status body => Normal (status, body)
  end.

(** [await res.json()] *)
Definition await_json (body : option JsValue) : Completion JsValue :=
  match body with
  | Some data => Normal data
  | None => Throw SyntaxError
  end.

(** The [try] block, lines 8 to 13. [fetch] is the environment. *)
Definition searchQuery_try (fetch : jsstring → FetchOutcome)
    (query : jsstring) : Completion JsValue :=
  url ← request_url query;
  '(status, body) ← await_fetch (fetch url);
  if negb (response_ok status) then Throw (Error "Search failed")
  else
    data ← await_json body;
    results ← get_results data;
    Normal (js_or results (JArr [])).

(** [searchQuery]: the [catch] block returns [[]] for every error. The
    [console] calls only observe and are left out. *)
Definition searchQuery (fetch : jsstring → FetchOutcome)
    (query : jsstring) : Promise JsValue :=
  match searchQuery_try fetch query with
  | Normal v => Resolved v
  | Throw err => Resolved (JArr [])
  end.

(** The requests [searchQuery] issues: one when the URL could be built. *)
Definition searchQuery_requests (query : jsstring) : list jsstring :=
  match request_url query with
  | Normal url => [url]
  | Throw _ => []
  end.
End api.

(** ** Reading a request URL back

    The standard reader of what [encodeURIComponent] writes: ECMAScript's
    [Decode] ([decodeURIComponent]), and the splitting of a query string
    into its [name=value] parameters at [&] and at the first [=]. They are
    what the round-trip property of the request URL is stated against. *)

Definition hex_value (c : N) : option N :=
  if is_digit c then Some (c - 48)
  else if (65 <=? c) && (c <=? 70) then Some (c - 55)
  else if (97 <=? c) && (c <=? 102) then Some (c - 87)
  else None.

(** [ParseHexOctet] *)
Definition parse_hex_octet (h1 h2 : N) : Completion N :=
  match hex_value h1, hex_value h2 with
  | Some a, Some b => Normal (16 * a + b)
  | _, _ => Throw URIError
  end.

(** The number of leading 1 bits of an octet (5 stands for "more than 4"). *)
Definition leading_ones (b : N) : nat :=
  if b <? 0x80 then 0
  else if b <? 0xC0 then 1
  else if b <? 0xE0 then 2
  else if b <? 0xF0 then 3
  else if b <? 0xF8 then 4
  else 5.

Definition is_continuation (b : N) : bool := (0x80 <=? b) && (b <=? 0xBF).

(** The code point of a well-formed UTF-8 sequence of two to four octets:
    continuation octets are [10xxxxxx], the encoding is the shortest one,
    and the code point is a scalar value up to U+10FFFF. *)
Definition utf8_decode (octets : list N) : Completion N :=
  match octets with
  | [b0; b1] =>
      let cp := (b0 - 0xC0) * 64 + (b1 - 0x80) in
      if is_continuation b1 && (0x80 <=? cp) then Normal cp else Throw URIError
  | [b0; b1; b2] =>
      let cp := (b0 - 0xE0) * 4096 + (b1 - 0x80) * 64 + (b2 - 0x80) in
      if is_continuation b1 && is_continuation b2 && (0x800 <=? cp)
         && negb (is_lead_surrogate cp || is_trail_surrogate cp)
      then Normal cp else Throw URIError
  | [b0; b1; b2; b3] =>
      let cp := (b0 - 0xF0) * 262144 + (b1 - 0x80) * 4096
                + (b2 - 0x80) * 64 + (b3 - 0x80) in
      if is_continuation b1 && is_continuation b2 && is_continuation b3
         && (0x10000 <=? cp) && (cp <=? 0x10FFFF)
      then Normal cp else Throw URIError
  | _ => Throw URIError
  end.

(** [UTF16EncodeCodePoint] *)
Definition utf16_encode (cp : N) : jsstring :=
  if cp <? 0x10000 then [cp]
  else [0xD800 + (cp - 0x10000) / 0x400; 0xDC00 + (cp - 0x10000) `mod` 0x400].

(** The [n] escaped continuation octets that follow a leading octet. *)
Fixpoint take_continuations (n : nat) (s : jsstring) : Completion (list N * jsstring) :=
  match n with
  | O => Normal ([], s)
  | S n' =>
      match s with
      | p :: h1 :: h2 :: rest =>
          if p =? 37 then
            b ← parse_hex_octet h1 h2;
            '(bs, rest') ← take_continuations n' rest;
            Normal (b :: bs, rest')
          else Throw URIError
      | _ => Throw URIError
      end
  end.

(** [Decode(string, "")]; one unit of fuel per decoded character. *)
Fixpoint Decode (fuel : nat) (s : jsstring) : Completion jsstring :=
  match s with
  | [] => Normal []
  | c :: rest =>
      match fuel with
      | O => Throw (Error "out of fuel")
      | S fuel' =>
          if c =? 37 then
            match rest with
            | h1 :: h2 :: rest1 =>
                b ← parse_hex_octet h1 h2;
                match leading_ones b with
                | 0%nat => r ← Decode fuel' rest1; Normal (b :: r)
                | 2%nat | 3%nat | 4%nat =>
                    '(conts, rest2) ←
                      take_continuations (pred (leading_ones b)) rest1;
                    cp ← utf8_decode (b :: conts);
                    r ← Decode fuel' rest2;
                    Normal (utf16_encode cp ++ r)
                | _ => Throw URIError
                end
            | _ => Throw URIError
            end
          else r ← Decode fuel' rest; Normal (c :: r)
      end
  end.

Definition decodeURIComponent (s : jsstring) : Completion jsstring :=
  Decode (length s) s.

(** The pieces of [s] between the occurrences of [sep]. *)
Fixpoint split_on (sep : N) (s : jsstring) : list jsstring :=
  match s with
  | [] => [[]]
  | c :: rest =>
      if c =? sep then [] :: split_on sep rest
      else match split_on sep rest with
           | piece :: more => (c :: piece) :: more
           | [] => [[c]]
           end
  end.

(** [s] cut at the first occurrence of [sep]. *)
Fixpoint break_at (sep : N) (s : jsstring) : jsstring * jsstring :=
  match s with
  | [] => ([], [])
  | c :: rest =>
      if c =? sep then ([], rest)
      else let '(name, value) := break_at sep rest in (c :: name, value)
  end.

(** The decoded parameters of a query string (the part after [?]). *)
Definition query_parameters (search : jsstring) : Completion (list (jsstring * jsstring)) :=
  mapM (λ piece,
          let '(name, value) := break_at 61 piece in
          n ← decodeURIComponent name;
          v ← decodeURIComponent value;
          Normal (n, v))
       (split_on 38 search).

(** ** The search view: [frontend/src/App.jsx] *)

(** WhiteSpace and LineTerminator code units, the ones [trim] strips. *)
Definition is_white_space (c : N) : bool :=
  (c =? 0x9) || (c =? 0xA) || (c =? 0xB) || (c =? 0xC) || (c =? 0xD)
  || (c =? 0x20) || (c =? 0xA0) || (c =? 0x1680)
  || (0x2000 <=? c) && (c <=? 0x200A)
  || (c =? 0x2028) || (c =? 0x2029) || (c =? 0x202F) || (c =? 0x205F)
  || (c =? 0x3000) || (c =? 0xFEFF).

Fixpoint trim_start (s : jsstring) : jsstring :=
  match s with
  | [] => []
  | c :: rest => if is_white_space c then trim_start rest else s
  end.

Definition trim_end (s : jsstring) : jsstring :=
  reverse (trim_start (reverse s)).

(** [String.prototype.trim] *)
Definition trim (s : jsstring) : jsstring := trim_end (trim_start s).

(** The four [useState] cells of [App], lines 5 to 8. *)
Record ViewState := {
  query : jsstring;
  results : JsValue;
  loading : bool;
  hasSearched : bool;
}.

Definition initial_view : ViewState :=
  {| query := []; results := JArr []; loading := false; hasSearched := false |}.

Definition setQuery (q : jsstring) (v : ViewState) : ViewState :=
  {| query := q; results := results v; loading := loading v;
     hasSearched := hasSearched v |}.

Definition setResults (r : JsValue) (v : ViewState) : ViewState :=
  {| query := query v; results := r; loading := loading v;
     hasSearched := hasSearched v |}.

Definition setLoading (b : bool) (v : ViewState) : ViewState :=
  {| query := query v; results := results v; loading := b;
     hasSearched := hasSearched v |}.

Definition setHasSearched (b : bool) (v : ViewState) : ViewState :=
  {| query := query v; results := results v; loading := loading v;
     hasSearched := b |}.

(** The window listener of lines 16 to 20:
    [e.key === "Escape" && setQuery("")]. *)
Definition clear (key : jsstring) (v : ViewState) : ViewState :=
  if jsstring_eqb key (lit "Escape") then setQuery [] v else v.

(** [handleSearch] up to its [await], lines 23 to 27: the new state and the
    calls of [searchQuery] it starts (none on the early return). *)
Definition handleSearch_start (v : ViewState) : ViewState * list jsstring :=
  if negb (truthy (JStr (trim (query v)))) then (v, [])
  else (setHasSearched true (setLoading true v), [query v]).

(** [handleSearch] after its [await], lines 27 to 29, run on the state of
    that later moment. If the awaited promise rejected, the remainder would
    never run. *)
Definition handleSearch_resume (settled : Promise JsValue) (v : ViewState) : ViewState :=
  match settled with
  | Resolved data =>
      setLoading false (setResults (if isArray data then data else JArr []) v)
  | Rejected _ => v
  end.

(** What can happen to the mounted component. *)
Inductive Event :=
| Change (value : jsstring)
    (** [onChange] of the input: [setQuery(e.target.value)] *)
| KeyDown (key : jsstring)
    (** a [keydown] on [window], whatever has the focus *)
| Submit
    (** [onSubmit] of the form (Enter in the input, or the button) *)
| Settle (i : nat) (fetch : jsstring → FetchOutcome).
    (** the [i]-th call of [searchQuery] in flight settles, the network
        having answered as [fetch] says *)

(** The component with the calls of [searchQuery] in flight, each with the
    query it was given, oldest first. *)
Record App := {
  view : ViewState;
  in_flight : list jsstring;
}.

Definition initial_app : App := {| view := initial_view; in_flight := [] |}.

Section view.
Variable API_BASE : option jsstring.

Definition handle (e : Event) (a : App) : App :=
  match e with
  | Change value =>
      {| view := setQuery value (view a); in_flight := in_flight a |}
  | KeyDown key =>
      {| view := clear key (view a); in_flight := in_flight a |}
  | Submit =>
      let '(v, calls) := handleSearch_start (view a) in
      {| view := v; in_flight := in_flight a ++ calls |}
  | Settle i fetch =>
      match in_flight a !! i with
      | Some q =>
          {| view := handleSearch_resume (searchQuery API_BASE fetch q) (view a);
             in_flight := delete i (in_flight a) |}
      | None => a
      end
  end.

Definition step (a a' : App) : Prop := ∃ e, a' = handle e a.

Definition reachable (a : App) : Prop := rtc step initial_app a.

(** The state after a sequence of events, first event first. *)
Definition run (events : list Event) (a : App) : App :=
  foldl (λ a e, handle e a) a events.
End view.

(** Before any search was submitted there is no result and no call in
    flight. *)
Definition fresh_or_searched (a : App) : Prop :=
  hasSearched (view a) = false →
  results (view a) = JArr [] ∧ in_flight a = [].

(** ** The rows of the result list, [App.jsx] lines 113 to 144 *)

(** [r.title], [r.url], [r.snippet], [r.summary]: as for [results], no
    built-in prototype has a property of one of these names. *)
Definition get_field (name : jsstring) (r : JsValue) : Completion JsValue :=
  match r with
  | JUndefined | JNull => Throw TypeError
  | JObj fields => Normal (default JUndefined (own_property name fields))
  | JBool _ | JNum _ | JStr _ | JArr _ => Normal JUndefined
  end.

Inductive ParagraphKind := UrlLine | Snippet | Summary.

(** What stands in a child position of the row's link. *)
Inductive Child :=
| Value (v : JsValue)
    (** a bare value, [{v}] *)
| Paragraph (kind : ParagraphKind) (content : JsValue).
    (** a [<p>] showing [content] *)

(** [{v && <p>...{v}...</p>}] *)
Definition paragraph_if (kind : ParagraphKind) (v : JsValue) : Child :=
  if truthy v then Paragraph kind v else Value v.

(** One [<li>]: its key, the [href] of the link, the child of the [<h3>],
    and the three conditional paragraphs. *)
Record Row := {
  row_key : nat;
  row_href : JsValue;
  row_heading : JsValue;
  row_url : Child;
  row_snippet : Child;
  row_summary : Child;
}.

(** The body of the callback of [results.map], for the result [r] at
    index [i]; the properties are read in source order. *)
Definition render_row (i : nat) (r : JsValue) : Completion Row :=
  href ← get_field (lit "url") r;
  title ← get_field (lit "title") r;
  url ← get_field (lit "url") r;
  snippet ← get_field (lit "snippet") r;
  summary ← get_field (lit "summary") r;
  Normal {| row_key := i;
            row_href := href;
            row_heading := js_or title (JStr (lit "Untitled"));
            row_url := paragraph_if UrlLine url;
            row_snippet := paragraph_if Snippet snippet;
            row_summary := paragraph_if Summary summary |}.

(** [results.map((r, i) => ...)] *)
Definition render_rows (results : list JsValue) : Completion (list Row) :=
  mapM (λ '(i, r), render_row i r) (imap (λ i r, (i, r)) results).

(** The values React renders as nothing in a child position: [undefined],
    [null], booleans and the empty string. A number is rendered as text,
    zero and [NaN] included. *)
Definition renders_nothing (v : JsValue) : bool :=
  match v with
  | JUndefined | JNull | JBool _ => true
  | JStr s => bool_decide (s = [])
  | JNum _ | JArr _ | JObj _ => false
  end.

(** A property that is a string or is absent, as the fields of a search
    result are. *)
Definition string_or_absent (name : jsstring) (fields : list (jsstring * JsValue)) : bool :=
  match own_property name fields with
  | None | Some (JStr _) => true
  | Some _ => false
  end.

(** [null] and [undefined], the values without properties. *)
Definition is_nullish (v : JsValue) : bool :=
  match v with JUndefined | JNull => true | _ => false end.

(** How a row slot shows a field that is a string or is absent: the
    paragraph with the string when it is not empty, and otherwise a value
    that renders as nothing. *)
Definition shows_field (fields : list (jsstring * JsValue))
    (kind : ParagraphKind) (name : jsstring) (slot : Child) : Prop :=
  (∃ s, s ≠ [] ∧ own_property name fields = Some (JStr s) ∧
        slot = Paragraph kind (JStr s)) ∨
  (∃ v, renders_nothing v = true ∧ slot = Value v ∧
        (own_property name fields = None ∨
         own_property name fields = Some (JStr []))).

(** A result as the backend is meant to send it: an object whose
    [title], [url], [snippet] and [summary] are each a string or absent. *)
Definition is_search_result (r : JsValue) : bool :=
  match r with
  | JObj fields =>
      string_or_absent (lit "title") fields
      && string_or_absent (lit "url") fields
      && string_or_absent (lit "snippet") fields
      && string_or_absent (lit "summary") fields
  | _ => false
  end.

(** What React accepts in a child position: primitives, and arrays of
    what it accepts. A plain object there makes it throw. *)
Fixpoint valid_child (v : JsValue) : bool :=
  match v with
  | JObj _ => false
  | JArr items => forallb valid_child items
  | JUndefined | JNull | JBool _ | JNum _ | JStr _ => true
  end.

Definition child_valid (c : Child) : bool :=
  match c with Value v | Paragraph _ v => valid_child v end.

(** The children of a row: the one of the heading and the three slots. *)
Definition row_valid (r : Row) : bool :=
  valid_child (row_heading r) && child_valid (row_url r)
  && child_valid (row_snippet r) && child_valid (row_summary r).

(** ** Rendering of the result area, lines 90 to 147 *)

Inductive Block :=
| Spacer
    (** [<div className="h-4" />] *)
| SkeletonList (rows : list nat)
    (** one placeholder [<li>] per element of [skeletonRows], by key *)
| EmptyMessage
    (** "No results yet. Try a different search." *)
| ResultList (rows : list Row).
    (** the [<li>] elements the callback of [results.map] returned *)

(** [new Array(6).fill(null)] *)
Definition skeletonRows : list JsValue := replicate 6 JNull.

(** [{cond && <element/>}] *)
Definition when {A} (cond : bool) (element : A) : list A :=
  if cond then [element] else [].

(** [{cond && element}] for an element whose evaluation may throw; it is
    not evaluated when [cond] is false. *)
Definition when_do {A} (cond : bool) (element : Completion A) : Completion (list A) :=
  if cond then x ← element; Normal [x] else Normal [].

(** The children of [<main>] as [App] evaluates them, in source order, for
    [results] an array of the given items: the callback of [results.map]
    runs for every result and what it throws leaves [App]. *)
Definition render_main (loading hasSearched : bool) (results : list JsValue)
    : Completion (list Block) :=
  list ← when_do (negb loading && (0 <? length results)%nat)
           (rows ← render_rows results; Normal (ResultList rows));
  Normal (when hasSearched Spacer
          ++ when loading (SkeletonList (imap (λ i _, i) skeletonRows))
          ++ when (negb loading && hasSearched && (length results =? 0)%nat)
               EmptyMessage
          ++ list).

Definition block_valid (b : Block) : bool :=
  match b with
  | ResultList rows => forallb row_valid rows
  | Spacer | SkeletonList _ | EmptyMessage => true
  end.

(** React's reconciliation of the elements [App] returned: an object in a
    child position makes it throw. *)
Definition reconcile (blocks : list Block) : Completion (list Block) :=
  if forallb block_valid blocks then Normal blocks
  else Throw (Error "Objects are not valid as a React child").

(** The result area on the page: [App] evaluated, then reconciled. An
    error of either step unmounts the component. *)
Definition render_area (loading hasSearched : bool) (results : list JsValue)
    : Completion (list Block) :=
  blocks ← render_main loading hasSearched results;
  reconcile blocks.

(** The result area of a view state. [results.length] and [results.map] are
    the array's; they are modelled for array values only. *)
Definition render (v : ViewState) : option (Completion (list Block)) :=
  match results v with
  | JArr items => Some (render_area (loading v) (hasSearched v) items)
  | _ => None
  end.

(** The three visual states of the result area. *)
Inductive Visual := Skeleton | NoResults | Listing.

Definition visual_of (b : Block) : option Visual :=
  match b with
  | Spacer => None
  | SkeletonList _ => Some Skeleton
  | EmptyMessage => Some NoResults
  | ResultList _ => Some Listing
  end.

(** The conditions of the specification's table, in its words. *)
Definition spec_visual (loading hasSearched : bool) (resultCount : nat) : list Visual :=
  when loading Skeleton
  ++ when (negb loading && hasSearched && (resultCount =? 0)%nat) NoResults
  ++ when (negb loading && (0 <? resultCount)%nat) Listing.

(** ** The console of the API client, [frontend/src/api.js] lines 6 to 15 *)

Inductive ConsoleEntry :=
| LogSearching (query : jsstring)
    (** [console.log("Searching:", query)] *)
| LogStatus (status : Z)
    (** [console.log("Backend response status:", res.status)] *)
| LogData (data : JsValue)
    (** [console.log("Backend data:", data)] *)
| ErrorSearch (err : JsError).
    (** [console.error("Search error:", err)] *)

Definition is_error_entry (e : ConsoleEntry) : bool :=
  match e with ErrorSearch _ => true | _ => false end.

(** A computation that writes to the console and completes. *)
Record Traced (A : Type) := {
  console : list ConsoleEntry;
  outcome : Completion A;
}.
Arguments console {A} _.
Arguments outcome {A} _.

#[global] Instance Traced_ret : MRet Traced := λ A v,
  {| console := []; outcome := Normal v |}.
#[global] Instance Traced_bind : MBind Traced := λ A B k c,
  match outcome c with
  | Normal v =>
      {| console := console c ++ console (k v); outcome := outcome (k v) |}
  | Throw e => {| console := console c; outcome := Throw e |}
  end.

Definition tell (e : ConsoleEntry) : Traced unit :=
  {| console := [e]; outcome := Normal tt |}.

Definition lift {A} (c : Completion A) : Traced A :=
  {| console := []; outcome := c |}.

Section api_console.
Variable API_BASE : option jsstring.

(** The [try] block with its [console.log] calls. *)
Definition searchQuery_try_console (fetch : jsstring → FetchOutcome)
    (query : jsstring) : Traced JsValue :=
  url ← lift (request_url API_BASE query);
  '(status, body) ← lift (await_fetch (fetch url));
  _ ← tell (LogStatus status);
  if negb (response_ok status) then lift (Throw (Error "Search failed"))
  else
    data ← lift (await_json body);
    _ ← tell (LogData data);
    results ← lift (get_results data);
    mret (js_or results (JArr [])).

(** [searchQuery] with what it writes to the console, in order. *)
Definition searchQuery_console (fetch : jsstring → FetchOutcome)
    (query : jsstring) : list ConsoleEntry * Promise JsValue :=
  let body := searchQuery_try_console fetch query in
  match outcome body with
  | Normal v => (LogSearching query :: console body, Resolved v)
  | Throw err =>
      (LogSearching query :: console body ++ [ErrorSearch err],
       Resolved (JArr []))
  end.
End api_console.

(** ** The header, [App.jsx] lines 36 to 88 *)



(** ** The [keydown] listener of the window, [App.jsx] lines 16 to 20 *)

(** The listeners registered on [window] for [keydown], each function by
    its identity, in registration order. *)
Definition addEventListener (f : nat) (listeners : list nat) : list nat :=
  if bool_decide (f ∈ listeners) then listeners else listeners ++ [f].

Definition removeEventListener (f : nat) (listeners : list nat) : list nat :=
  filter (λ g, g ≠ f) listeners.

(** The effect: it registers the function [clear] it has just created and
    returns the cleanup that removes that same function. *)
Definition keydown_effect (clear : nat) (listeners : list nat)
    : list nat * (list nat → list nat) :=
  (addEventListener clear listeners, removeEventListener clear).

(** The requests a submission issues: those of the calls it starts. *)
Definition submit_requests (API_BASE : option jsstring) (v : ViewState) : list jsstring :=
  (handleSearch_start v).2 ≫= searchQuery_requests API_BASE.

(** The events handled by [onChange] of the field and by the [keydown]
    listener of the window. The submission of the form, which is also what
    an Enter key press in the field leads to, is the separate event
    [Submit]. *)
Definition is_change_or_keydown (e : Event) : bool :=
  match e with Change _ | KeyDown _ => true | Submit | Settle _ _ => false end.

(** The skeleton is only up while a call is in flight, and calls are only
    in flight after a search was submitted. *)
Definition loading_accounted (a : App) : Prop :=
  (loading (view a) = true → in_flight a ≠ []) ∧
  (in_flight a ≠ [] → hasSearched (view a) = true).

(** ** Concrete inputs *)

(** A backend that answers every request with status 200 and [body]. *)
Definition answers (body : JsValue) : jsstring → FetchOutcome :=
  λ _, FetchResponse 200 (Some body).

(** [{ "results": [ { "title": "A" } ] }] *)
Definition one_result : JsValue :=
  JObj [(lit "results", JArr [JObj [(lit "title", JStr (lit "A"))]])].

(** The view with [cats] typed into the field. *)
Definition typed_cats : App :=
  {| view := setQuery (lit "cats") initial_view; in_flight := [] |}.

(** [{ "results": "none" }]: a truthy [results] that is not an array. *)
Definition string_results : JsValue :=
  JObj [(lit "results", JStr (lit "none"))].

(** The state after typing [cats], submitting, and the backend answering
    with one result. *)
Definition searched_cats : App :=
  run None [Change (lit "cats"); Submit; Settle 0 (answers one_result)] initial_app.

(** Two searches in flight: [cats] submitted, then [dogs]. *)
Definition two_in_flight : App :=
  run None [Change (lit "cats"); Submit; Change (lit "dogs"); Submit] initial_app.

(** A backend that answers every request with status 500 and no body. *)
Definition fails : jsstring → FetchOutcome := λ _, FetchResponse 500 None.

(** [{ "title": "A", "url": "http://a", "snippet": "s" }] *)
Definition result_A : list (jsstring * JsValue) :=
  [(lit "title", JStr (lit "A")); (lit "url", JStr (lit "http://a"));
   (lit "snippet", JStr (lit "s"))].

(** The view with [ cats ] typed into the field, a space on each side. *)
Definition typed_spaced_cats : ViewState :=
  setQuery (lit " cats ") initial_view.

(** A second search, for [dogs], in flight while the result of the first
    is shown. *)
Definition searching_dogs : App :=
  run None [Change (lit "cats"); Submit; Settle 0 (answers one_result);
            Change (lit "dogs"); Submit] initial_app.

(** [{ "results": [ { "title": "A" }, null ] }] *)
Definition null_result : JsValue :=
  JObj [(lit "results", JArr [JObj [(lit "title", JStr (lit "A"))]; JNull])].

(** The state after a search for [cats] answered with [null_result]. *)
Definition searched_null : App :=
  run None [Change (lit "cats"); Submit; Settle 0 (answers null_result)] initial_app.

(** * Properties *)

(** ** The API client *)

Section api_properties.
Variable API_BASE : option jsstring.
Implicit Types (fetch : jsstring → FetchOutcome) (query url : jsstring).

Lemma searchQuery_resolves fetch query :
  ∃ v, searchQuery API_BASE fetch query = Resolved v.
Proof. unfold searchQuery. destruct (searchQuery_try _ _ _); eauto. Qed.

Lemma searchQuery_try_throw fetch query e :
  searchQuery_try API_BASE fetch query = Throw e →
  searchQuery API_BASE fetch query = Resolved (JArr []).
Proof. unfold searchQuery. by intros ->. Qed.

Lemma searchQuery_try_fetch fetch query url :
  request_url API_BASE query = Normal url →
  searchQuery_try API_BASE fetch query =
    '(status, body) ← await_fetch (fetch url);
    if negb (response_ok status) then Throw (Error "Search failed")
    else
      data ← await_json body;
      results ← get_results data;
      Normal (js_or results (JArr [])).
Proof. unfold searchQuery_try. by intros ->. Qed.

(** C1: [searchQuery] never rejects, whatever the query and the network
    do; and when the URL cannot be built, when [fetch] rejects, when the
    status is not 2xx, or when the body is not valid JSON, the promise
    resolves with the empty array. *)
Theorem searchQuery_swallows_errors fetch query :
  (∃ v, searchQuery API_BASE fetch query = Resolved v) ∧
  (∀ e, searchQuery API_BASE fetch query ≠ Rejected e) ∧
  (∀ e, request_url API_BASE query = Throw e →
        searchQuery API_BASE fetch query = Resolved (JArr [])) ∧
  (∀ url, request_url API_BASE query = Normal url →
     (fetch url = FetchRejected →
      searchQuery API_BASE fetch query = Resolved (JArr [])) ∧
     (∀ status body, fetch url = FetchResponse status body →
        (response_ok status = false →
         searchQuery API_BASE fetch query = Resolved (JArr [])) ∧
        (body = None →
         searchQuery API_BASE fetch query = Resolved (JArr [])))).
Proof.
  split; [apply searchQuery_resolves|]. split.
  { intros e. by destruct (searchQuery_resolves fetch query) as [v ->]. }
  split.
  - intros e He. apply searchQuery_try_throw with e.
    unfold searchQuery_try. by rewrite He.
  - intros url Hurl. split.
    + intros Hf. apply searchQuery_try_throw with NetworkError.
      rewrite (searchQuery_try_fetch _ _ _ Hurl), Hf. done.
    + intros status body Hf. split.
      * intros Hok. apply searchQuery_try_throw with (Error "Search failed").
        rewrite (searchQuery_try_fetch _ _ _ Hurl), Hf. simpl. by rewrite Hok.
      * intros ->. unfold searchQuery.
        rewrite (searchQuery_try_fetch _ _ _ Hurl), Hf. simpl.
        by destruct (response_ok status).
Qed.

Lemma searchQuery_results_or_empty fetch query url status data :
  request_url API_BASE query = Normal url →
  fetch url = FetchResponse status (Some data) →
  response_ok status = true →
  searchQuery API_BASE fetch query = Resolved (results_or_empty data).
Proof.
  intros Hurl Hf Hok. unfold searchQuery.
  rewrite (searchQuery_try_fetch _ _ _ Hurl), Hf. simpl. rewrite Hok. simpl.
  destruct data as [| |b|f|s|items|fields]; try done.
  simpl. unfold js_or.
  destruct (own_property _ fields) as [r|]; simpl; [|done].
  by destruct (truthy r).
Qed.

(** C4, as the code has it: on a 2xx response with a JSON body,
    [searchQuery] resolves with the body's [results] property when that
    property is truthy, and with the empty array when the property is
    falsy, when it is absent, or when the body is not an object. *)
Theorem searchQuery_success fetch query url status data :
  request_url API_BASE query = Normal url →
  fetch url = FetchResponse status (Some data) →
  response_ok status = true →
  (∀ fields r,
     data = JObj fields → own_property (lit "results") fields = Some r →
     truthy r = true →
     searchQuery API_BASE fetch query = Resolved r) ∧
  (∀ fields r,
     data = JObj fields → own_property (lit "results") fields = Some r →
     truthy r = false →
     searchQuery API_BASE fetch query = Resolved (JArr [])) ∧
  (∀ fields,
     data = JObj fields → own_property (lit "results") fields = None →
     searchQuery API_BASE fetch query = Resolved (JArr [])) ∧
  ((∀ fields, data ≠ JObj fields) →
   searchQuery API_BASE fetch query = Resolved (JArr [])).
Proof.
  intros Hurl Hf Hok.
  rewrite (searchQuery_results_or_empty _ _ _ _ _ Hurl Hf Hok).
  repeat split.
  - intros fields r -> Hr Ht. simpl. by rewrite Hr, Ht.
  - intros fields r -> Hr Ht. simpl. by rewrite Hr, Ht.
  - intros fields -> Hr. simpl. by rewrite Hr.
  - intros Hno. destruct data; try done. by destruct (Hno fields).
Qed.
End api_properties.

(** ** The search view *)

Lemma trim_start_blank (s : jsstring) :
  trim_start s = [] ↔ Forall (λ c, is_white_space c = true) s.
Proof.
  induction s as [|c s IH]; simpl.
  - split; [constructor | done].
  - destruct (is_white_space c) eqn:Hc.
    + rewrite IH. split; [by constructor | by inversion 1].
    + split; [done | inversion 1; congruence].
Qed.

Lemma trim_start_head (s : jsstring) c r :
  trim_start s = c :: r → is_white_space c = false.
Proof.
  induction s as [|d s IH]; simpl; [done|].
  destruct (is_white_space d) eqn:Hd; [done | congruence].
Qed.

(** [trim] leaves nothing exactly when every code unit is white space. *)
Lemma trim_blank (s : jsstring) :
  trim s = [] ↔ Forall (λ c, is_white_space c = true) s.
Proof.
  unfold trim, trim_end. split.
  - intros H. apply trim_start_blank.
    destruct (trim_start s) as [|c r] eqn:Hs; [done|].
    apply (f_equal reverse) in H. rewrite reverse_involutive in H.
    change (reverse []) with (@nil N) in H.
    apply trim_start_blank in H.
    rewrite Forall_reverse in H.
    apply trim_start_head in Hs. inversion H; congruence.
  - intros H. apply trim_start_blank in H. by rewrite H.
Qed.

Section view_properties.
Variable API_BASE : option jsstring.
Implicit Types (a : App) (v : ViewState) (e : Event).

Lemma handleSearch_start_blank v :
  trim (query v) = [] → handleSearch_start v = (v, []).
Proof. unfold handleSearch_start. by intros ->. Qed.

Lemma handleSearch_start_nonblank v :
  trim (query v) ≠ [] →
  handleSearch_start v = (setHasSearched true (setLoading true v), [query v]).
Proof.
  unfold handleSearch_start. intros H. simpl.
  by rewrite bool_decide_eq_false_2.
Qed.

(** C3: submitting a query that is empty or all white space changes
    nothing: the view state is the same and no call of [searchQuery] is
    started, so no request is issued. *)
Theorem submit_blank_is_noop a :
  Forall (λ c, is_white_space c = true) (query (view a)) →
  handleSearch_start (view a) = (view a, []) ∧
  handle API_BASE Submit a = a.
Proof.
  intros H%trim_blank. split; [by apply handleSearch_start_blank|].
  simpl. rewrite handleSearch_start_blank by done.
  destruct a as [v calls]. simpl. by rewrite app_nil_r.
Qed.

(** C2: submitting a query whose trimmed value is not empty sets [loading]
    and [hasSearched] at once, before the call of [searchQuery] it starts
    has settled; when that call settles it has resolved, [results] becomes
    the array it resolved with and [loading] becomes false. *)
Theorem submit_nonblank a :
  trim (query (view a)) ≠ [] →
  (loading (view (handle API_BASE Submit a)) = true ∧
   hasSearched (view (handle API_BASE Submit a)) = true ∧
   query (view (handle API_BASE Submit a)) = query (view a) ∧
   results (view (handle API_BASE Submit a)) = results (view a) ∧
   in_flight (handle API_BASE Submit a) = in_flight a ++ [query (view a)]) ∧
  (∀ a' i fetch,
     in_flight a' !! i = Some (query (view a)) →
     ∃ data,
       searchQuery API_BASE fetch (query (view a)) = Resolved data ∧
       results (view (handle API_BASE (Settle i fetch) a')) =
         (if isArray data then data else JArr []) ∧
       (∀ items, data = JArr items →
          results (view (handle API_BASE (Settle i fetch) a')) = JArr items) ∧
       loading (view (handle API_BASE (Settle i fetch) a')) = false ∧
       in_flight (handle API_BASE (Settle i fetch) a') = delete i (in_flight a')).
Proof.
  intros H. split.
  - simpl. by rewrite handleSearch_start_nonblank.
  - intros a' i fetch Hi.
    destruct (searchQuery_resolves API_BASE fetch (query (view a))) as [data Hd].
    exists data. simpl. rewrite Hi, Hd. simpl.
    repeat split; try done. by intros items ->.
Qed.

Lemma fresh_or_searched_step a e :
  fresh_or_searched a → fresh_or_searched (handle API_BASE e a).
Proof.
  unfold fresh_or_searched. intros Inv.
  destruct e as [value|key| |i fetch]; simpl.
  - done.
  - unfold clear. by destruct (jsstring_eqb _ _).
  - unfold handleSearch_start.
    destruct (negb _); simpl; [|done].
    intros [-> ->]%Inv. by rewrite app_nil_r.
  - destruct (in_flight a !! i) as [q|] eqn:Hi; [|done].
    destruct (searchQuery_resolves API_BASE fetch q) as [data ->]. simpl.
    intros [_ Hnil]%Inv. by rewrite Hnil in Hi.
Qed.

Lemma reachable_ind (P : App → Prop) :
  P initial_app →
  (∀ a e, reachable API_BASE a → P a → P (handle API_BASE e a)) →
  ∀ a, reachable API_BASE a → P a.
Proof.
  intros Hinit Hstep. unfold reachable.
  apply (rtc_ind_r (R := step API_BASE) P initial_app Hinit).
  intros b c Hb [e ->] Pb. by apply Hstep.
Qed.

Lemma rtc_step_run events a : rtc (step API_BASE) a (run API_BASE events a).
Proof.
  unfold run. induction events as [|e events IH] using rev_ind; simpl.
  - done.
  - rewrite foldl_snoc. eapply rtc_r; [apply IH|]. by exists e.
Qed.

Lemma reachable_run events : reachable API_BASE (run API_BASE events initial_app).
Proof. apply rtc_step_run. Qed.

Lemma reachable_fresh_or_searched a :
  reachable API_BASE a → fresh_or_searched a.
Proof.
  apply reachable_ind; [done|].
  intros ? ? _. apply fresh_or_searched_step.
Qed.

(** C5: in every reachable state, when [results] is not the empty array,
    [loading] or [hasSearched] is true. *)
Theorem results_imply_searched a :
  reachable API_BASE a →
  results (view a) ≠ JArr [] →
  loading (view a) = true ∨ hasSearched (view a) = true.
Proof.
  intros Ha%reachable_fresh_or_searched Hres. right.
  destruct (hasSearched (view a)) eqn:Hs; [done|].
  by destruct (Ha Hs).
Qed.

Lemma hasSearched_step a e :
  hasSearched (view a) = true → hasSearched (view (handle API_BASE e a)) = true.
Proof.
  intros Hs. destruct e as [value|key| |i fetch]; simpl.
  - done.
  - unfold clear. by destruct (jsstring_eqb _ _).
  - unfold handleSearch_start. by destruct (negb _).
  - destruct (in_flight a !! i) as [q|]; [|done].
    by destruct (searchQuery_resolves API_BASE fetch q) as [data ->].
Qed.

(** C6: once [hasSearched] is true it stays true through every sequence of
    events: typing and clearing the field, key presses (Escape among them),
    submissions, and calls settling. *)
Theorem hasSearched_monotonic events a :
  hasSearched (view a) = true →
  hasSearched (view (run API_BASE events a)) = true.
Proof.
  revert a. induction events as [|e events IH]; intros a Hs; simpl; [done|].
  apply IH. by apply hasSearched_step.
Qed.

(** C8: a [keydown] of Escape on the window empties [query] and touches
    nothing else: [results], [hasSearched], [loading] and the calls in
    flight are the same, and so is the rendered result area. *)
Theorem escape_clears_query_only a :
  query (view (handle API_BASE (KeyDown (lit "Escape")) a)) = [] ∧
  results (view (handle API_BASE (KeyDown (lit "Escape")) a)) = results (view a) ∧
  hasSearched (view (handle API_BASE (KeyDown (lit "Escape")) a)) = hasSearched (view a) ∧
  loading (view (handle API_BASE (KeyDown (lit "Escape")) a)) = loading (view a) ∧
  in_flight (handle API_BASE (KeyDown (lit "Escape")) a) = in_flight a ∧
  render (view (handle API_BASE (KeyDown (lit "Escape")) a)) = render (view a).
Proof.
  unfold handle, clear.
  assert (jsstring_eqb (lit "Escape") (lit "Escape") = true) as ->
    by (by apply bool_decide_eq_true).
  unfold render. by destruct a as [[q r l h] calls].
Qed.

(** Any other key leaves the component as it is. *)
Lemma other_key_is_ignored a key :
  key ≠ lit "Escape" → handle API_BASE (KeyDown key) a = a.
Proof.
  intros Hkey. unfold handle, clear, jsstring_eqb.
  rewrite bool_decide_eq_false_2 by done. by destruct a.
Qed.

Lemma isArray_step a e :
  isArray (results (view a)) = true →
  isArray (results (view (handle API_BASE e a))) = true.
Proof.
  intros Hs. destruct e as [value|key| |i fetch]; simpl.
  - done.
  - unfold clear. by destruct (jsstring_eqb _ _).
  - unfold handleSearch_start. by destruct (negb _).
  - destruct (in_flight a !! i) as [q|]; [|done].
    destruct (searchQuery_resolves API_BASE fetch q) as [data ->]. simpl.
    by destruct (isArray data) eqn:Hd.
Qed.

(** C10: [results] is an array in every reachable state; and whatever
    [results] held before, when a call settles [results] becomes the value
    the call resolved with if that is an array and the empty array if it is
    not. *)
Theorem results_always_array :
  (∀ a, reachable API_BASE a → isArray (results (view a)) = true) ∧
  (∀ a i fetch q data,
     in_flight a !! i = Some q →
     searchQuery API_BASE fetch q = Resolved data →
     results (view (handle API_BASE (Settle i fetch) a))
       = (if isArray data then data else JArr []) ∧
     (isArray data = false →
      results (view (handle API_BASE (Settle i fetch) a)) = JArr []) ∧
     isArray (results (view (handle API_BASE (Settle i fetch) a))) = true).
Proof.
  split.
  - apply reachable_ind; [done|].
    intros ? ? _. apply isArray_step.
  - intros a i fetch q data Hi Hd.
    assert (results (view (handle API_BASE (Settle i fetch) a))
            = (if isArray data then data else JArr [])) as Hstore.
    { simpl. by rewrite Hi, Hd. }
    rewrite Hstore. split; [done|]. split.
    + by intros ->.
    + by destruct (isArray data) eqn:Harr.
Qed.
End view_properties.

(** ** The request URL *)

Ltac solve_octets := zify; Z.to_euclidean_division_equations; lia.

Ltac case_compare :=
  repeat match goal with
  | |- context [?a <? ?b] => destruct (N.ltb_spec a b)
  | |- context [?a <=? ?b] => destruct (N.leb_spec a b)
  | |- context [?a =? ?b] => destruct (N.eqb_spec a b)
  end; simpl.

Lemma bind_Normal {A B} (x : A) (k : A → Completion B) : Normal x ≫= k = k x.
Proof. reflexivity. Qed.

Lemma bind_Normal_inv {A B} (c : Completion A) (k : A → Completion B) y :
  c ≫= k = Normal y → ∃ x, c = Normal x ∧ k x = Normal y.
Proof. destruct c as [x|e]; [eauto | done]. Qed.

Lemma below_16 (P : N → Prop) :
  P 0 → P 1 → P 2 → P 3 → P 4 → P 5 → P 6 → P 7 → P 8 → P 9 → P 10 →
  P 11 → P 12 → P 13 → P 14 → P 15 → ∀ d, d < 16 → P d.
Proof.
  intros H0 H1 H2 H3 H4 H5 H6 H7 H8 H9 H10 H11 H12 H13 H14 H15 d Hd.
  destruct d as [|p]; [assumption|].
  do 4 (try destruct p as [p|p|]; try assumption; try lia).
Qed.

Lemma hex_value_hex_digit d : d < 16 → hex_value (hex_digit d) = Some d.
Proof. revert d. by apply below_16. Qed.

Lemma hex_digit_unescaped d : d < 16 → is_unescaped (hex_digit d) = true.
Proof. revert d. by apply below_16. Qed.

Lemma parse_hex_octet_percent b :
  b < 256 →
  parse_hex_octet (hex_digit (b / 16)) (hex_digit (b `mod` 16)) = Normal b.
Proof.
  intros Hb. unfold parse_hex_octet.
  rewrite !hex_value_hex_digit by solve_octets.
  f_equal. solve_octets.
Qed.

Lemma utf8_encode_octets cp :
  cp ≤ 0x10FFFF → Forall (λ b, b < 256) (utf8_encode cp).
Proof.
  intros Hcp. unfold utf8_encode.
  case_compare; repeat constructor; solve_octets.
Qed.

Lemma utf8_encode_ascii cp :
  cp < 0x80 → utf8_encode cp = [cp] ∧ leading_ones cp = 0%nat.
Proof.
  intros Hcp. unfold utf8_encode, leading_ones.
  destruct (N.ltb_spec cp 0x80); [done | lia].
Qed.

Lemma is_continuation_low6 x : is_continuation (0x80 + x `mod` 64) = true.
Proof.
  assert (0x80 ≤ 0x80 + x `mod` 64 ≤ 0xBF) by solve_octets.
  unfold is_continuation. case_compare; (done || lia).
Qed.

Lemma leading_ones_2 b : 0xC0 ≤ b < 0xE0 → leading_ones b = 2%nat.
Proof. intros. unfold leading_ones. case_compare; (done || lia). Qed.

Lemma leading_ones_3 b : 0xE0 ≤ b < 0xF0 → leading_ones b = 3%nat.
Proof. intros. unfold leading_ones. case_compare; (done || lia). Qed.

Lemma leading_ones_4 b : 0xF0 ≤ b < 0xF8 → leading_ones b = 4%nat.
Proof. intros. unfold leading_ones. case_compare; (done || lia). Qed.

Lemma utf8_encode_decode cp :
  0x80 ≤ cp → is_scalar cp →
  ∃ b0 conts,
    utf8_encode cp = b0 :: conts ∧
    leading_ones b0 = S (length conts) ∧
    (1 ≤ length conts ≤ 3)%nat ∧
    utf8_decode (b0 :: conts) = Normal cp.
Proof.
  intros Hlo Hsc. unfold utf8_encode, is_scalar in *.
  destruct (N.ltb_spec cp 0x80); [lia|].
  destruct (N.ltb_spec cp 0x800); [|destruct (N.ltb_spec cp 0x10000)].
  - eexists _, _. split; [done|]. split; [|split; [simpl; lia|]].
    + apply leading_ones_2. solve_octets.
    + unfold utf8_decode. rewrite is_continuation_low6.
      assert ((0xC0 + cp / 64 - 0xC0) * 64 + (0x80 + cp `mod` 64 - 0x80) = cp)
        as -> by solve_octets.
      case_compare; (done || lia).
  - eexists _, _. split; [done|]. split; [|split; [simpl; lia|]].
    + apply leading_ones_3. solve_octets.
    + unfold utf8_decode. rewrite !is_continuation_low6.
      assert ((0xE0 + cp / 4096 - 0xE0) * 4096
              + (0x80 + (cp / 64) `mod` 64 - 0x80) * 64
              + (0x80 + cp `mod` 64 - 0x80) = cp) as -> by solve_octets.
      unfold is_lead_surrogate, is_trail_surrogate.
      case_compare; (done || lia).
  - eexists _, _. split; [done|]. split; [|split; [simpl; lia|]].
    + apply leading_ones_4. solve_octets.
    + unfold utf8_decode. rewrite !is_continuation_low6.
      assert ((0xF0 + cp / 262144 - 0xF0) * 262144
              + (0x80 + (cp / 4096) `mod` 64 - 0x80) * 4096
              + (0x80 + (cp / 64) `mod` 64 - 0x80) * 64
              + (0x80 + cp `mod` 64 - 0x80) = cp) as -> by solve_octets.
      case_compare; (done || lia).
Qed.

Lemma Decode_literal fuel c rest :
  c ≠ 37 →
  Decode (S fuel) (c :: rest) = r ← Decode fuel rest; Normal (c :: r).
Proof. intros Hc. simpl. by destruct (N.eqb_spec c 37). Qed.

Lemma Decode_escape fuel b rest :
  b < 256 →
  Decode (S fuel) (percent_octet b ++ rest) =
    match leading_ones b with
    | 0%nat => r ← Decode fuel rest; Normal (b :: r)
    | 2%nat | 3%nat | 4%nat =>
        '(conts, rest2) ← take_continuations (pred (leading_ones b)) rest;
        cp ← utf8_decode (b :: conts);
        r ← Decode fuel rest2;
        Normal (utf16_encode cp ++ r)
    | _ => Throw URIError
    end.
Proof.
  intros Hb. unfold percent_octet.
  change (Decode (S fuel) (([37; hex_digit (b / 16); hex_digit (b `mod` 16)]) ++ rest))
    with (b' ← parse_hex_octet (hex_digit (b / 16)) (hex_digit (b `mod` 16));
          match leading_ones b' with
          | 0%nat => r ← Decode fuel rest; Normal (b' :: r)
          | 2%nat | 3%nat | 4%nat =>
              '(conts, rest2) ← take_continuations (pred (leading_ones b')) rest;
              cp ← utf8_decode (b' :: conts);
              r ← Decode fuel rest2;
              Normal (utf16_encode cp ++ r)
          | _ => Throw URIError
          end).
  by rewrite parse_hex_octet_percent.
Qed.

Lemma take_continuations_percent octets rest :
  Forall (λ b, b < 256) octets →
  take_continuations (length octets) (percent_encode octets ++ rest)
    = Normal (octets, rest).
Proof.
  induction 1 as [|b octets Hb _ IH]; [done|].
  change (take_continuations (length (b :: octets))
            (percent_encode (b :: octets) ++ rest))
    with (b' ← parse_hex_octet (hex_digit (b / 16)) (hex_digit (b `mod` 16));
          '(bs, rest') ← take_continuations (length octets)
                           (percent_encode octets ++ rest);
          Normal (b' :: bs, rest')).
  by rewrite parse_hex_octet_percent, IH.
Qed.

Lemma percent_encode_length octets :
  length (percent_encode octets) = (3 * length octets)%nat.
Proof.
  induction octets as [|b octets IH]; [done|].
  change (percent_encode (b :: octets))
    with (percent_octet b ++ percent_encode octets).
  rewrite length_app, IH. simpl. lia.
Qed.

Lemma utf8_encode_nonempty cp : utf8_encode cp ≠ [].
Proof. unfold utf8_encode. by case_compare. Qed.

(** Decoding the escaped octets of one scalar value gives back its UTF-16
    code units. *)
Lemma Decode_code_point fuel cp rest :
  is_scalar cp →
  Decode (S fuel) (percent_encode (utf8_encode cp) ++ rest)
    = r ← Decode fuel rest; Normal (utf16_encode cp ++ r).
Proof.
  intros Hsc.
  assert (cp ≤ 0x10FFFF) as Hmax by (unfold is_scalar in Hsc; lia).
  pose proof (utf8_encode_octets cp Hmax) as Hoct.
  destruct (N.ltb_spec cp 0x80) as [Hascii|Hhigh].
  - destruct (utf8_encode_ascii cp Hascii) as [-> Hl].
    change (percent_encode [cp] ++ rest) with (percent_octet cp ++ rest).
    rewrite Decode_escape by lia. rewrite Hl.
    unfold utf16_encode. by destruct (N.ltb_spec cp 0x10000); [|lia].
  - destruct (utf8_encode_decode cp Hhigh Hsc) as (b0 & conts & Henc & Hl & Hn & Hdec).
    rewrite Henc in Hoct |- *. inversion Hoct as [|? ? Hb0 Hconts]; subst.
    change (percent_encode (b0 :: conts) ++ rest)
      with (percent_octet b0 ++ (percent_encode conts ++ rest)).
    rewrite Decode_escape by done. rewrite Hl. simpl pred.
    rewrite take_continuations_percent by done.
    destruct conts as [|b1 [|b2 [|b3 [|]]]]; simpl in Hn; try lia;
      rewrite bind_Normal; cbv beta iota; by rewrite Hdec, bind_Normal.
Qed.

Lemma surrogate_pair_scalar c d :
  is_lead_surrogate c = true → is_trail_surrogate d = true →
  is_scalar (surrogate_pair_to_code_point c d) ∧
  utf16_encode (surrogate_pair_to_code_point c d) = [c; d].
Proof.
  unfold is_lead_surrogate, is_trail_surrogate.
  intros [Hc1%N.leb_le Hc2%N.leb_le]%andb_true_iff
         [Hd1%N.leb_le Hd2%N.leb_le]%andb_true_iff.
  unfold is_scalar, utf16_encode, surrogate_pair_to_code_point. split; [lia|].
  destruct (N.ltb_spec ((c - 55296) * 1024 + (d - 56320) + 65536) 65536); [lia|].
  f_equal; [|f_equal]; solve_octets.
Qed.

Lemma code_unit_scalar c :
  c < 65536 → is_lead_surrogate c = false → is_trail_surrogate c = false →
  is_scalar c ∧ utf16_encode c = [c].
Proof.
  unfold is_lead_surrogate, is_trail_surrogate, is_scalar, utf16_encode.
  intros Hc Hl Ht. split.
  - revert Hl Ht. case_compare; (done || lia).
  - by destruct (N.ltb_spec c 65536); [|lia].
Qed.

Lemma percent_not_unescaped c : is_unescaped c = true → c ≠ 37.
Proof. by intros H ->. Qed.

Lemma Decode_code_point_fuel fuel cp rest q :
  is_scalar cp →
  (length (percent_encode (utf8_encode cp) ++ rest) ≤ fuel)%nat →
  (∀ fuel', (length rest ≤ fuel')%nat → Decode fuel' rest = Normal q) →
  Decode fuel (percent_encode (utf8_encode cp) ++ rest)
    = Normal (utf16_encode cp ++ q).
Proof.
  intros Hsc Hfuel IH.
  rewrite length_app, percent_encode_length in Hfuel.
  pose proof (utf8_encode_nonempty cp) as Hne.
  destruct (utf8_encode cp) as [|b0 conts] eqn:Henc; [done|]. simpl in Hfuel.
  destruct fuel as [|fuel]; [lia|].
  rewrite <- Henc, Decode_code_point by done.
  by rewrite IH by lia.
Qed.

(** Decoding what [encodeURIComponent] produced gives back the string. *)
Lemma encodeURIComponent_Decode (q : jsstring) :
  wf_jsstring q →
  ∀ enc, encodeURIComponent q = Normal enc →
  ∀ fuel, (length enc ≤ fuel)%nat → Decode fuel enc = Normal q.
Proof.
  remember (length q) as n eqn:Hn. revert q Hn.
  induction n as [n IH] using lt_wf_ind. intros q Hn Hwf enc Henc fuel Hfuel.
  destruct q as [|c rest]; simpl in Henc.
  { injection Henc as <-. by destruct fuel. }
  inversion Hwf as [|? ? Hc Hrest]; subst.
  destruct (is_unescaped c) eqn:Hun.
  { apply bind_Normal_inv in Henc as (r & Hr & [= <-]).
    destruct fuel as [|fuel]; [simpl in Hfuel; lia|].
    rewrite Decode_literal by by apply percent_not_unescaped.
    erewrite (IH (length rest)); [done|simpl; lia|done|done|exact Hr|].
    simpl in Hfuel. lia. }
  destruct (is_lead_surrogate c) eqn:Hlead.
  { destruct rest as [|d rest']; [done|].
    destruct (is_trail_surrogate d) eqn:Htrail; [|done].
    apply bind_Normal_inv in Henc as (r & Hr & [= <-]).
    destruct (surrogate_pair_scalar c d Hlead Htrail) as [Hsc Hutf16].
    inversion Hrest; subst.
    rewrite Decode_code_point_fuel with (q := rest'); [by rewrite Hutf16|done|done|].
    intros fuel' Hfuel'.
    eapply (IH (length rest')); [simpl; lia|done|done|exact Hr|done]. }
  destruct (is_trail_surrogate c) eqn:Htrail; [done|].
  apply bind_Normal_inv in Henc as (r & Hr & [= <-]).
  destruct (code_unit_scalar c Hc Hlead Htrail) as [Hsc Hutf16].
  rewrite Decode_code_point_fuel with (q := rest); [by rewrite Hutf16|done|done|].
  intros fuel' Hfuel'.
  eapply (IH (length rest)); [simpl; lia|done|done|exact Hr|done].
Qed.

Lemma code_units_ind (P : jsstring → Prop) :
  P [] →
  (∀ c rest, P rest → (∀ d rest', rest = d :: rest' → P rest') → P (c :: rest)) →
  ∀ s, P s.
Proof.
  intros Hnil Hcons s.
  assert (P s ∧ ∀ d rest, s = d :: rest → P rest) as [? _]; [|done].
  induction s as [|c s [IH1 IH2]]; [done|].
  split; [by apply Hcons|]. by intros d rest [= -> ->].
Qed.

Lemma is_unescaped_ascii c : is_unescaped c = true → c < 127.
Proof.
  intros Hun. destruct (N.ltb_spec c 127) as [|Hc]; [done|].
  revert Hun. unfold is_unescaped, is_alpha, is_digit, is_mark.
  repeat match goal with
  | |- context [c <=? ?k] => rewrite (proj2 (N.leb_gt c k)) by lia
  | |- context [c =? ?k] => rewrite (proj2 (N.eqb_neq c k)) by lia
  end.
  by rewrite !andb_false_r.
Qed.

(** [encodeURIComponent] throws exactly on the strings that are not
    well-formed UTF-16, and what it throws is a [URIError]. *)
Lemma encodeURIComponent_isWellFormed (q : jsstring) :
  if isWellFormed q then ∃ enc, encodeURIComponent q = Normal enc
  else encodeURIComponent q = Throw URIError.
Proof.
  induction q as [|c rest IH1 IH2] using code_units_ind; simpl; [eauto|].
  destruct (is_unescaped c) eqn:Hun.
  - assert (is_lead_surrogate c = false ∧ is_trail_surrogate c = false) as [-> ->].
    { apply is_unescaped_ascii in Hun.
      unfold is_lead_surrogate, is_trail_surrogate.
      split; apply andb_false_intro1, N.leb_gt; lia. }
    simpl. destruct (isWellFormed rest); [|by rewrite IH1].
    destruct IH1 as [enc ->]. eauto.
  - destruct (is_lead_surrogate c).
    + destruct rest as [|d rest']; [done|].
      destruct (is_trail_surrogate d); [|done]. simpl.
      specialize (IH2 d rest' eq_refl).
      destruct (isWellFormed rest'); [|by rewrite IH2].
      destruct IH2 as [enc ->]. eauto.
    + destruct (is_trail_surrogate c); [done|]. simpl.
      destruct (isWellFormed rest); [|by rewrite IH1].
      destruct IH1 as [enc ->]. eauto.
Qed.

Lemma percent_encode_safe octets :
  Forall (λ b, b < 256) octets → Forall is_uri_safe (percent_encode octets).
Proof.
  induction 1 as [|b octets Hb _ IH]; [constructor|].
  change (percent_encode (b :: octets))
    with (percent_octet b ++ percent_encode octets).
  apply Forall_app. split; [|done].
  unfold percent_octet.
  repeat apply Forall_cons_2; [by right| | |constructor];
    left; apply hex_digit_unescaped; solve_octets.
Qed.

Lemma encodeURIComponent_safe (q : jsstring) :
  wf_jsstring q →
  ∀ enc, encodeURIComponent q = Normal enc → Forall is_uri_safe enc.
Proof.
  induction q as [|c rest IH1 IH2] using code_units_ind;
    intros Hwf enc Henc; simpl in Henc.
  { injection Henc as <-. constructor. }
  inversion Hwf as [|? ? Hc Hrest]; subst.
  destruct (is_unescaped c) eqn:Hun.
  { apply bind_Normal_inv in Henc as (r & Hr & [= <-]).
    constructor; [by left | by apply IH1]. }
  destruct (is_lead_surrogate c) eqn:Hlead.
  { destruct rest as [|d rest']; [done|].
    destruct (is_trail_surrogate d) eqn:Htrail; [|done].
    apply bind_Normal_inv in Henc as (r & Hr & [= <-]).
    destruct (surrogate_pair_scalar c d Hlead Htrail) as [Hsc _].
    inversion Hrest; subst.
    apply Forall_app. split; [|by eapply IH2].
    apply percent_encode_safe, utf8_encode_octets.
    unfold is_scalar in Hsc. lia. }
  destruct (is_trail_surrogate c) eqn:Htrail; [done|].
  apply bind_Normal_inv in Henc as (r & Hr & [= <-]).
  apply Forall_app. split; [|by apply IH1].
  apply percent_encode_safe, utf8_encode_octets. lia.
Qed.

Lemma split_on_absent sep (s : jsstring) :
  Forall (λ c, c ≠ sep) s → split_on sep s = [s].
Proof.
  induction 1 as [|c s Hc _ IH]; simpl; [done|].
  destruct (N.eqb_spec c sep); [done|]. by rewrite IH.
Qed.

Lemma is_uri_safe_not_ampersand c : is_uri_safe c → c ≠ 38.
Proof. intros [H| ->]; [by intros -> | done]. Qed.

Lemma decodeURIComponent_encodeURIComponent (q enc : jsstring) :
  wf_jsstring q → encodeURIComponent q = Normal enc →
  decodeURIComponent enc = Normal q.
Proof.
  intros Hwf Henc. unfold decodeURIComponent.
  by apply encodeURIComponent_Decode with (q := q).
Qed.

(** C9, as the code has it: for every query that is well-formed UTF-16
    (every surrogate paired), [searchQuery] requests the URL made of the
    base, [/search?q=] and the encoded query; the encoded query holds only
    unreserved characters and [%], so the query string [q=...] is a single
    parameter, and decoding the parameter named [q] gives back the query.
    For every query with an unpaired surrogate [encodeURIComponent] throws
    a [URIError]: no URL is built, no request is issued, and [searchQuery]
    resolves with the empty array whatever the network would answer. *)
Theorem request_url_round_trip (API_BASE : option jsstring) (q : jsstring) :
  wf_jsstring q →
  (isWellFormed q = true →
   ∃ enc,
     request_url API_BASE q
       = Normal (API_BASE_text API_BASE ++ lit "/search?q=" ++ enc) ∧
     searchQuery_requests API_BASE q
       = [API_BASE_text API_BASE ++ lit "/search?q=" ++ enc] ∧
     Forall is_uri_safe enc ∧
     decodeURIComponent enc = Normal q ∧
     query_parameters (lit "q=" ++ enc) = Normal [(lit "q", q)]) ∧
  (isWellFormed q = false →
   request_url API_BASE q = Throw URIError ∧
   searchQuery_requests API_BASE q = [] ∧
   ∀ fetch, searchQuery API_BASE fetch q = Resolved (JArr [])).
Proof.
  intros Hwf.
  pose proof (encodeURIComponent_isWellFormed q) as Henc. split.
  - intros Hwell. rewrite Hwell in Henc. destruct Henc as [enc Henc].
    pose proof (encodeURIComponent_safe q Hwf enc Henc) as Hsafe.
    pose proof (decodeURIComponent_encodeURIComponent q enc Hwf Henc) as Hdec.
    exists enc. unfold searchQuery_requests, request_url. rewrite Henc.
    repeat split; try done.
    unfold query_parameters.
    change (lit "q=" ++ enc) with (113 :: 61 :: enc).
    rewrite split_on_absent.
    + simpl mapM.
      change (break_at 61 (113 :: 61 :: enc)) with ([113], enc).
      cbv beta iota.
      change (decodeURIComponent [113]) with (Normal (A := jsstring) [113]).
      by rewrite Hdec.
    + repeat apply Forall_cons_2; [done|done|].
      eapply List.Forall_impl; [|exact Hsafe]. apply is_uri_safe_not_ampersand.
  - intros Hill. rewrite Hill in Henc.
    assert (request_url API_BASE q = Throw URIError) as Hurl.
    { unfold request_url. by rewrite Henc. }
    split; [exact Hurl|]. split.
    + unfold searchQuery_requests. by rewrite Hurl.
    + intros fetch. unfold searchQuery, searchQuery_try. by rewrite Hurl.
Qed.

(** An unpaired surrogate makes [encodeURIComponent] throw: no URL is
    built, no request is issued, and the promise resolves with the empty
    array although the backend would have answered with a result. *)
Lemma request_url_lone_surrogate :
  wf_jsstring [0xD800] ∧
  request_url None [0xD800] = Throw URIError ∧
  searchQuery_requests None [0xD800] = [] ∧
  searchQuery None (answers one_result) [0xD800] = Resolved (JArr []).
Proof. split; [|done]. repeat constructor. Qed.

(** After a search answered with status 500 the result area shows the
    message, neither the skeleton nor a list. *)
Example status_500_shows_no_results :
  render (view (run None [Change (lit "cats"); Submit;
                          Settle 0 (λ _, FetchResponse 500 None)] initial_app))
    = Some (Normal [Spacer; EmptyMessage]).
Proof. reflexivity. Qed.

(** The query [a&b] is requested as [q=a%26b]. *)
Example request_url_ampersand :
  request_url (Some (lit "http://localhost:8000")) (lit "a&b")
    = Normal (lit "http://localhost:8000/search?q=a%26b").
Proof. reflexivity. Qed.

Lemma request_url_round_trip_witness :
  wf_jsstring (lit "a&b") ∧ isWellFormed (lit "a&b") = true ∧
  (∃ enc,
    request_url (Some (lit "http://localhost:8000")) (lit "a&b")
      = Normal (API_BASE_text (Some (lit "http://localhost:8000"))
                ++ lit "/search?q=" ++ enc) ∧
    searchQuery_requests (Some (lit "http://localhost:8000")) (lit "a&b")
      = [API_BASE_text (Some (lit "http://localhost:8000"))
         ++ lit "/search?q=" ++ enc] ∧
    Forall is_uri_safe enc ∧
    decodeURIComponent enc = Normal (lit "a&b") ∧
    query_parameters (lit "q=" ++ enc) = Normal [(lit "q", lit "a&b")]) ∧
  wf_jsstring [0xDC00; 97] ∧ isWellFormed [0xDC00; 97] = false ∧
  request_url (Some (lit "http://localhost:8000")) [0xDC00; 97] = Throw URIError ∧
  searchQuery_requests (Some (lit "http://localhost:8000")) [0xDC00; 97] = [] ∧
  searchQuery (Some (lit "http://localhost:8000")) (answers one_result) [0xDC00; 97]
    = Resolved (JArr []).
Proof.
  assert (wf_jsstring (lit "a&b")) as Hwf by (repeat constructor).
  assert (wf_jsstring [0xDC00; 97]) as Hwf' by (repeat constructor).
  split; [exact Hwf|]. split; [reflexivity|]. split.
  { exact (proj1 (request_url_round_trip (Some (lit "http://localhost:8000"))
                    (lit "a&b") Hwf) eq_refl). }
  split; [exact Hwf'|]. split; [reflexivity|].
  destruct (proj2 (request_url_round_trip (Some (lit "http://localhost:8000"))
                     [0xDC00; 97] Hwf') eq_refl) as (Hurl & Hreq & Hres).
  split; [exact Hurl|]. split; [exact Hreq|]. exact (Hres (answers one_result)).
Defined.

(** ** Concrete runs *)

(** The claim of C4 as the specification words it fails on a body whose
    [results] property is present and falsy: the property is [false], and
    the promise resolves with the empty array instead. *)
Lemma searchQuery_falsy_results :
  response_ok 200 = true ∧
  own_property (lit "results") [(lit "results", JBool false)] = Some (JBool false) ∧
  searchQuery None (answers (JObj [(lit "results", JBool false)])) (lit "cats")
    = Resolved (JArr []) ∧
  JArr [] ≠ JBool false.
Proof. repeat split; done. Qed.

Lemma searchQuery_success_witness :
  request_url None (lit "cats") = Normal (lit "undefined/search?q=cats") ∧
  answers one_result (lit "undefined/search?q=cats")
    = FetchResponse 200 (Some one_result) ∧
  response_ok 200 = true ∧
  searchQuery None (answers one_result) (lit "cats")
    = Resolved (JArr [JObj [(lit "title", JStr (lit "A"))]]) ∧
  searchQuery None (answers (JObj [])) (lit "cats") = Resolved (JArr []).
Proof.
  split; [reflexivity|]. split; [reflexivity|]. split; [reflexivity|]. split.
  - destruct (searchQuery_success None (answers one_result) (lit "cats")
                (lit "undefined/search?q=cats") 200 one_result
                eq_refl eq_refl eq_refl) as [Htruthy _].
    by eapply Htruthy.
  - destruct (searchQuery_success None (answers (JObj [])) (lit "cats")
                (lit "undefined/search?q=cats") 200 (JObj [])
                eq_refl eq_refl eq_refl) as (_ & _ & Habsent & _).
    by eapply Habsent.
Defined.

Lemma submit_blank_is_noop_witness :
  Forall (λ c, is_white_space c = true) [32; 9; 0xA0] ∧
  handleSearch_start (setQuery [32; 9; 0xA0] initial_view)
    = (setQuery [32; 9; 0xA0] initial_view, []) ∧
  handle None Submit
    {| view := setQuery [32; 9; 0xA0] initial_view; in_flight := [] |}
    = {| view := setQuery [32; 9; 0xA0] initial_view; in_flight := [] |}.
Proof.
  assert (Forall (λ c, is_white_space c = true) [32; 9; 0xA0]) as Hblank
    by (repeat constructor).
  split; [exact Hblank|].
  exact (submit_blank_is_noop None
           {| view := setQuery [32; 9; 0xA0] initial_view; in_flight := [] |}
           Hblank).
Defined.

Lemma trim_cats : trim (lit "cats") ≠ [].
Proof. discriminate. Qed.

Lemma submit_nonblank_witness :
  trim (query (view typed_cats)) ≠ [] ∧
  loading (view (handle None Submit typed_cats)) = true ∧
  hasSearched (view (handle None Submit typed_cats)) = true ∧
  in_flight (handle None Submit typed_cats) = [lit "cats"] ∧
  results (view (handle None (Settle 0 (answers one_result))
                   (handle None Submit typed_cats)))
    = JArr [JObj [(lit "title", JStr (lit "A"))]] ∧
  loading (view (handle None (Settle 0 (answers one_result))
                   (handle None Submit typed_cats))) = false.
Proof.
  split; [exact trim_cats|].
  destruct (submit_nonblank None typed_cats trim_cats)
    as [(Hl & Hs & _ & _ & Hf) Hsettle].
  split; [exact Hl|]. split; [exact Hs|]. split; [exact Hf|].
  destruct (Hsettle (handle None Submit typed_cats) 0%nat (answers one_result) eq_refl)
    as (data & Hdata & _ & Harr & Hload & _).
  split; [|exact Hload].
  apply Harr. by injection Hdata as <-.
Defined.

Lemma results_imply_searched_witness :
  reachable None searched_cats ∧
  results (view searched_cats) ≠ JArr [] ∧
  (loading (view searched_cats) = true ∨ hasSearched (view searched_cats) = true).
Proof.
  assert (reachable None searched_cats) as Hr by apply reachable_run.
  assert (results (view searched_cats) ≠ JArr []) as Hres by discriminate.
  split; [exact Hr|]. split; [exact Hres|].
  exact (results_imply_searched None searched_cats Hr Hres).
Defined.

Lemma hasSearched_monotonic_witness :
  hasSearched (view searched_cats) = true ∧
  hasSearched (view (run None [KeyDown (lit "Escape"); Change []; Submit;
                               Change (lit "dogs"); Submit;
                               Settle 0 (λ _, FetchRejected)]
                       searched_cats)) = true.
Proof.
  split; [reflexivity|].
  apply (hasSearched_monotonic None); reflexivity.
Defined.

Lemma results_always_array_witness :
  reachable None searching_dogs ∧
  isArray (results (view searching_dogs)) = true ∧
  results (view searching_dogs) = JArr [JObj [(lit "title", JStr (lit "A"))]] ∧
  in_flight searching_dogs !! 0%nat = Some (lit "dogs") ∧
  searchQuery None (answers string_results) (lit "dogs")
    = Resolved (JStr (lit "none")) ∧
  results (view (handle None (Settle 0 (answers string_results)) searching_dogs))
    = JArr [] ∧
  results (view (handle None (Settle 0 (answers one_result)) searching_dogs))
    = JArr [JObj [(lit "title", JStr (lit "A"))]].
Proof.
  assert (reachable None searching_dogs) as Hr by apply reachable_run.
  destruct (results_always_array None) as [Hinv Hsettle].
  split; [exact Hr|]. split; [exact (Hinv searching_dogs Hr)|].
  split; [reflexivity|]. split; [reflexivity|]. split; [reflexivity|]. split.
  - destruct (Hsettle searching_dogs 0%nat (answers string_results) (lit "dogs")
                (JStr (lit "none")) eq_refl eq_refl) as (_ & Hempty & _).
    exact (Hempty eq_refl).
  - destruct (Hsettle searching_dogs 0%nat (answers one_result) (lit "dogs")
                (JArr [JObj [(lit "title", JStr (lit "A"))]]) eq_refl eq_refl)
      as (Hstore & _).
    exact Hstore.
Defined.

(** * Further properties of the code *)

#[local] Set Warnings "-clear-no-such-hyp".

(** ** The API client *)

Section api_further.
Variable API_BASE : option jsstring.
Implicit Types (fetch : jsstring → FetchOutcome) (query url : jsstring).

Lemma Normal_inj {A} (x y : A) : Normal x = Normal y → x = y.
Proof. congruence. Qed.

Lemma searchQuery_try_truthy fetch query v :
  searchQuery_try API_BASE fetch query = Normal v → truthy v = true.
Proof.
  unfold searchQuery_try. intros H.
  apply bind_Normal_inv in H as (url & _ & H).
  apply bind_Normal_inv in H as ([status body] & _ & H).
  destruct (negb (response_ok status)); [done|].
  apply bind_Normal_inv in H as (data & _ & H).
  apply bind_Normal_inv in H as (r & _ & [= <-]).
  unfold js_or. by destruct (truthy r) eqn:Hr.
Qed.

(** X1: whatever the network does, the value [searchQuery] resolves with
    is truthy: never [undefined], [null], [false], a zero or the empty
    string, so a caller may read properties of it. *)
Theorem searchQuery_resolves_truthy fetch query :
  ∃ v, searchQuery API_BASE fetch query = Resolved v ∧ truthy v = true.
Proof.
  unfold searchQuery.
  destruct (searchQuery_try API_BASE fetch query) as [v|e] eqn:Htry.
  - exists v. split; [done|]. by eapply searchQuery_try_truthy.
  - by exists (JArr []).
Qed.

(** X2: a request is issued exactly for the queries that are well-formed
    UTF-16: one request then, and for a query with an unpaired surrogate
    none at all, the promise resolving with the empty array whatever the
    network would have answered. *)
Theorem searchQuery_requests_well_formed fetch query :
  length (searchQuery_requests API_BASE query)
    = (if isWellFormed query then 1 else 0)%nat ∧
  (isWellFormed query = false →
   searchQuery API_BASE fetch query = Resolved (JArr [])).
Proof.
  pose proof (encodeURIComponent_isWellFormed query) as Henc.
  unfold searchQuery_requests, searchQuery, searchQuery_try, request_url.
  destruct (isWellFormed query).
  - destruct Henc as [enc ->]. by split.
  - rewrite Henc. by split.
Qed.

Lemma encodeURIComponent_unescaped (q : jsstring) :
  Forall (λ c, is_unescaped c = true) q → encodeURIComponent q = Normal q.
Proof.
  induction 1 as [|c q Hc _ IH]; [done|].
  simpl. by rewrite Hc, IH.
Qed.

(** X3: a query made only of letters, digits and [- _ . ! ~ * ' ( )] is
    put in the URL as it is. *)
Theorem request_url_unescaped query :
  Forall (λ c, is_unescaped c = true) query →
  request_url API_BASE query
    = Normal (API_BASE_text API_BASE ++ lit "/search?q=" ++ query).
Proof.
  intros Hq. unfold request_url.
  by rewrite encodeURIComponent_unescaped.
Qed.

(** X4: two queries that are requested with the same URL are the same
    query. *)
Theorem request_url_injective query1 query2 url :
  wf_jsstring query1 → wf_jsstring query2 →
  request_url API_BASE query1 = Normal url →
  request_url API_BASE query2 = Normal url →
  query1 = query2.
Proof.
  unfold request_url. intros Hwf1 Hwf2 H1 H2.
  apply bind_Normal_inv in H1 as (enc1 & Henc1 & H1).
  apply bind_Normal_inv in H2 as (enc2 & Henc2 & H2).
  rewrite <- H1 in H2. apply Normal_inj in H2.
  apply app_inv_head, app_inv_head in H2. subst enc2.
  pose proof (decodeURIComponent_encodeURIComponent _ _ Hwf1 Henc1) as Hd1.
  pose proof (decodeURIComponent_encodeURIComponent _ _ Hwf2 Henc2) as Hd2.
  congruence.
Qed.
End api_further.

Lemma utf8_encode_length cp :
  (1 ≤ length (utf8_encode cp) ≤ 4)%nat ∧
  (cp < 0x10000 → (length (utf8_encode cp) ≤ 3)%nat).
Proof.
  unfold utf8_encode. case_compare; split; try lia.
Qed.

(** X5: the encoded query is at least as long as the query and at most
    nine times as long (three escaped octets for a code unit). *)
Theorem encodeURIComponent_length (q enc : jsstring) :
  wf_jsstring q → encodeURIComponent q = Normal enc →
  (length q ≤ length enc ≤ 9 * length q)%nat.
Proof.
  revert enc. induction q as [|c rest IH1 IH2] using code_units_ind;
    intros enc Hwf Henc; simpl in Henc.
  { injection Henc as <-. simpl. lia. }
  inversion Hwf as [|? ? Hc Hrest]; subst.
  destruct (is_unescaped c) eqn:Hun.
  { apply bind_Normal_inv in Henc as (r & Hr & [= <-]).
    specialize (IH1 r Hrest Hr). simpl. lia. }
  destruct (is_lead_surrogate c) eqn:Hlead.
  { destruct rest as [|d rest']; [done|].
    destruct (is_trail_surrogate d) eqn:Htrail; [|done].
    apply bind_Normal_inv in Henc as (r & Hr & [= <-]).
    inversion Hrest; subst.
    specialize (IH2 d rest' eq_refl r ltac:(done) Hr).
    pose proof (utf8_encode_length (surrogate_pair_to_code_point c d)) as [Hl _].
    rewrite length_app, percent_encode_length. simpl. lia. }
  destruct (is_trail_surrogate c) eqn:Htrail; [done|].
  apply bind_Normal_inv in Henc as (r & Hr & [= <-]).
  specialize (IH1 r Hrest Hr).
  pose proof (utf8_encode_length c) as [Hl Hbmp]. specialize (Hbmp Hc).
  rewrite length_app, percent_encode_length. simpl. lia.
Qed.

(** ** The console *)

Section console_properties.
Variable API_BASE : option jsstring.
Implicit Types (fetch : jsstring → FetchOutcome) (query url : jsstring).

Lemma Traced_bind_lift {A B} (c : Completion A) (k : A → Traced B) :
  lift c ≫= k = match c with
                | Normal v => k v
                | Throw e => {| console := []; outcome := Throw e |}
                end.
Proof. destruct c as [v|e]; [|done]. unfold mbind, Traced_bind. simpl. by destruct (k v). Qed.

Lemma Traced_bind_tell {B} (e : ConsoleEntry) (k : unit → Traced B) :
  tell e ≫= k = {| console := e :: console (k tt); outcome := outcome (k tt) |}.
Proof. done. Qed.

(** The traced [try] block completes as the untraced one and writes no
    error itself. *)
Lemma searchQuery_try_console_outcome fetch query :
  outcome (searchQuery_try_console API_BASE fetch query)
    = searchQuery_try API_BASE fetch query ∧
  filter is_error_entry (console (searchQuery_try_console API_BASE fetch query)) = [].
Proof.
  unfold searchQuery_try_console, searchQuery_try.
  rewrite Traced_bind_lift.
  destruct (request_url API_BASE query) as [url|e]; [|done].
  rewrite bind_Normal, Traced_bind_lift.
  destruct (await_fetch (fetch url)) as [[status body]|e]; [|done].
  rewrite bind_Normal. cbv beta iota. rewrite Traced_bind_tell.
  destruct (negb (response_ok status)); [done|].
  rewrite Traced_bind_lift.
  destruct (await_json body) as [data|e]; [|done].
  rewrite bind_Normal, Traced_bind_tell, Traced_bind_lift.
  by destruct (get_results data) as [r|e].
Qed.

(** X6: the promise of the traced [searchQuery] is the one of
    [searchQuery]; the console starts with the query; and an error is
    written exactly when one was swallowed: once, last, and it is the error
    that was thrown. *)
Theorem searchQuery_console_errors fetch query :
  (searchQuery_console API_BASE fetch query).2 = searchQuery API_BASE fetch query ∧
  list.head (searchQuery_console API_BASE fetch query).1 = Some (LogSearching query) ∧
  (∀ v, searchQuery_try API_BASE fetch query = Normal v →
     filter is_error_entry (searchQuery_console API_BASE fetch query).1 = []) ∧
  (∀ e, searchQuery_try API_BASE fetch query = Throw e →
     filter is_error_entry (searchQuery_console API_BASE fetch query).1
       = [ErrorSearch e] ∧
     list.last (searchQuery_console API_BASE fetch query).1 = Some (ErrorSearch e)).
Proof.
  destruct (searchQuery_try_console_outcome fetch query) as [Hout Hclean].
  unfold searchQuery_console, searchQuery. rewrite Hout.
  destruct (searchQuery_try API_BASE fetch query) as [v|e]; simpl.
  - split; [done|]. split; [done|]. split; [|done].
    intros _ _. rewrite filter_cons_False by (simpl; tauto). exact Hclean.
  - split; [done|]. split; [done|]. split; [done|].
    intros e' [= <-]. split.
    + rewrite filter_cons_False by (simpl; tauto).
      rewrite list.filter_app, Hclean. done.
    + by rewrite app_comm_cons, last_snoc.
Qed.

(** What the [try] block writes, in order. *)
Lemma searchQuery_try_console_log fetch query :
  console (searchQuery_try_console API_BASE fetch query) =
    match request_url API_BASE query with
    | Throw _ => []
    | Normal url =>
        match fetch url with
        | FetchRejected => []
        | FetchResponse status body =>
            LogStatus status ::
            (if response_ok status
             then match body with Some data => [LogData data] | None => [] end
             else [])
        end
    end.
Proof.
  unfold searchQuery_try_console.
  rewrite Traced_bind_lift.
  destruct (request_url API_BASE query) as [url|e]; [|done].
  rewrite Traced_bind_lift.
  destruct (fetch url) as [|status body]; [done|].
  simpl await_fetch. cbv beta iota. rewrite Traced_bind_tell.
  destruct (response_ok status); [|done]. simpl negb. cbv iota.
  rewrite Traced_bind_lift.
  destruct body as [data|]; [|done]. simpl await_json. cbv beta iota.
  rewrite Traced_bind_tell, Traced_bind_lift.
  by destruct (get_results data) as [r|e].
Qed.

(** X7: the status of every response that arrived is written to the
    console, whether it is a 2xx status or not; the body is written only
    when the status is 2xx and the body is valid JSON. *)
Theorem searchQuery_console_response fetch query url status body :
  request_url API_BASE query = Normal url →
  fetch url = FetchResponse status body →
  LogStatus status ∈ (searchQuery_console API_BASE fetch query).1 ∧
  (∀ data, LogData data ∈ (searchQuery_console API_BASE fetch query).1 ↔
           response_ok status = true ∧ body = Some data).
Proof.
  intros Hurl Hf.
  pose proof (searchQuery_try_console_log fetch query) as Hlog.
  rewrite Hurl, Hf in Hlog.
  unfold searchQuery_console.
  destruct (outcome (searchQuery_try_console API_BASE fetch query));
    simpl; rewrite Hlog; clear Hlog.
  - split; [set_solver|]. intros data.
    destruct (response_ok status), body as [data'|]; set_solver.
  - split; [set_solver|]. intros data.
    destruct (response_ok status), body as [data'|]; set_solver.
Qed.
End console_properties.

(** ** The rows of the result list *)

Lemma render_row_nullish i r :
  is_nullish r = true → render_row i r = Throw TypeError.
Proof. by destruct r. Qed.

Lemma render_row_object i r :
  is_nullish r = false → ∃ row, render_row i r = Normal row ∧ row_key row = i.
Proof. destruct r; try done; intros _; by eexists. Qed.

Lemma mapM_Completion_cons {A B} (f : A → Completion B) x l :
  mapM f (x :: l) = y ← f x; k ← mapM f l; mret (y :: k).
Proof. reflexivity. Qed.

Lemma render_rows_from n (results : list JsValue) :
  (Exists (λ r, is_nullish r = true) results →
   mapM (λ '(i, r), render_row i r) (imap (λ i r, (n + i, r)%nat) results)
     = Throw TypeError) ∧
  (Forall (λ r, is_nullish r = false) results →
   ∃ rows,
     mapM (λ '(i, r), render_row i r) (imap (λ i r, (n + i, r)%nat) results)
       = Normal rows ∧
     row_key <$> rows = seq n (length results)).
Proof.
  revert n. induction results as [|r results IH]; intros n.
  { split; [by inversion 1 | by exists []]. }
  assert (imap (λ i r0, ((n + i)%nat, r0)) (r :: results)
          = (n, r) :: imap (λ i r0, ((S n + i)%nat, r0)) results) as ->.
  { simpl. rewrite Nat.add_0_r. f_equal. apply imap_ext. intros; simpl; f_equal; lia. }
  destruct (IH (S n)) as [IHthrow IHok]. rewrite mapM_Completion_cons. split.
  - intros Hex. destruct (is_nullish r) eqn:Hr.
    + by rewrite render_row_nullish.
    + destruct (render_row_object n r Hr) as (row & -> & _).
      rewrite bind_Normal, IHthrow; [done|].
      inversion Hex; [congruence | done].
  - intros Hall. inversion Hall as [|? ? Hr Hrest]; subst.
    destruct (render_row_object n r Hr) as (row & -> & Hkey).
    destruct (IHok Hrest) as (rows & -> & Hkeys).
    exists (row :: rows). split; [done|].
    rewrite fmap_cons, Hkey, Hkeys. done.
Qed.


Lemma shows_field_paragraph_if fields kind name :
  string_or_absent name fields = true →
  shows_field fields kind name
    (paragraph_if kind (default JUndefined (own_property name fields))).
Proof.
  unfold string_or_absent, shows_field, paragraph_if.
  destruct (own_property name fields) as [[| | | |s| |]|]; try done; intros _.
  - destruct s as [|c s].
    + right. exists (JStr []). by eauto.
    + left. exists (c :: s). by eauto.
  - right. exists JUndefined. by eauto.
Qed.

(** X9: for a result whose [title], [url], [snippet] and [summary] are
    strings or absent, the row's heading is the title when it is not
    empty and [Untitled] otherwise, and each of the three paragraphs is
    there exactly when its field is a non-empty string, nothing being shown
    in its place otherwise. *)
Theorem render_row_search_result i (fields : list (jsstring * JsValue)) :
  string_or_absent (lit "title") fields = true →
  string_or_absent (lit "url") fields = true →
  string_or_absent (lit "snippet") fields = true →
  string_or_absent (lit "summary") fields = true →
  ∃ row,
    render_row i (JObj fields) = Normal row ∧
    ((∃ s, s ≠ [] ∧ own_property (lit "title") fields = Some (JStr s) ∧
           row_heading row = JStr s) ∨
     (row_heading row = JStr (lit "Untitled") ∧
      (own_property (lit "title") fields = None ∨
       own_property (lit "title") fields = Some (JStr [])))) ∧
    shows_field fields UrlLine (lit "url") (row_url row) ∧
    shows_field fields Snippet (lit "snippet") (row_snippet row) ∧
    shows_field fields Summary (lit "summary") (row_summary row).
Proof.
  intros Htitle Hurl Hsnippet Hsummary.
  eexists. split; [reflexivity|]. simpl.
  split; [|by repeat split; apply shows_field_paragraph_if].
  unfold string_or_absent in Htitle. unfold js_or.
  destruct (own_property (lit "title") fields) as [[| | | |s| |]|]; try done.
  - destruct s as [|c s]; [right; by eauto|].
    left. exists (c :: s). by eauto.
  - right. by eauto.
Qed.

(** X10: a field that is a falsy number (a zero or [NaN]) is not replaced
    by its paragraph but left as it is in the row, where it is rendered as
    text. *)
Theorem render_row_falsy_number i (fields : list (jsstring * JsValue)) f :
  truthy (JNum f) = false →
  ∃ row,
    render_row i (JObj fields) = Normal row ∧
    renders_nothing (JNum f) = false ∧
    (own_property (lit "url") fields = Some (JNum f) →
     row_url row = Value (JNum f)) ∧
    (own_property (lit "snippet") fields = Some (JNum f) →
     row_snippet row = Value (JNum f)) ∧
    (own_property (lit "summary") fields = Some (JNum f) →
     row_summary row = Value (JNum f)).
Proof.
  intros Hf. eexists. split; [reflexivity|]. split; [done|].
  simpl. unfold paragraph_if.
  repeat split; intros ->; simpl default; by rewrite Hf.
Qed.

(** ** Rendering of the result area *)

Lemma spec_visual_exclusive loading hasSearched n :
  (length (spec_visual loading hasSearched n) ≤ 1)%nat.
Proof. destruct loading, hasSearched, n; simpl; lia. Qed.

Lemma render_main_loading hasSearched results :
  render_main true hasSearched results
    = Normal (when hasSearched Spacer ++ [SkeletonList [0; 1; 2; 3; 4; 5]%nat]).
Proof. by destruct hasSearched. Qed.

Lemma render_main_empty hasSearched :
  render_main false hasSearched []
    = Normal (when hasSearched Spacer ++ when hasSearched EmptyMessage).
Proof. by destruct hasSearched. Qed.

Lemma render_main_populated hasSearched r results :
  render_main false hasSearched (r :: results)
    = rows ← render_rows (r :: results);
      Normal (when hasSearched Spacer ++ [ResultList rows]).
Proof.
  unfold render_main, when_do. simpl negb. simpl andb.
  destruct (render_rows (r :: results)) as [rows|e]; [|done].
  rewrite !bind_Normal. by destruct hasSearched.
Qed.

Lemma reconcile_Normal blocks blocks' :
  reconcile blocks = Normal blocks' → blocks' = blocks.
Proof. unfold reconcile. destruct (forallb _ _); [congruence | done]. Qed.

Lemma reconcile_list hasSearched rows :
  reconcile (when hasSearched Spacer ++ [ResultList rows])
    = if forallb row_valid rows
      then Normal (when hasSearched Spacer ++ [ResultList rows])
      else Throw (Error "Objects are not valid as a React child").
Proof.
  unfold reconcile. destruct hasSearched; simpl; by rewrite andb_true_r.
Qed.

Lemma imap_from_cons n (r : JsValue) results :
  imap (λ i r0, ((n + i)%nat, r0)) (r :: results)
    = (n, r) :: imap (λ i r0, ((S n + i)%nat, r0)) results.
Proof.
  simpl. rewrite Nat.add_0_r. f_equal. apply imap_ext. intros; simpl; f_equal; lia.
Qed.

Lemma string_or_absent_heading name fields s :
  string_or_absent name fields = true →
  valid_child (js_or (default JUndefined (own_property name fields)) (JStr s)) = true.
Proof.
  unfold string_or_absent, js_or.
  destruct (own_property name fields) as [[| | | |t| |]|]; try done; intros _.
  simpl. by destruct (negb _).
Qed.

Lemma string_or_absent_slot kind name fields :
  string_or_absent name fields = true →
  child_valid (paragraph_if kind (default JUndefined (own_property name fields))) = true.
Proof.
  unfold string_or_absent, paragraph_if.
  destruct (own_property name fields) as [[| | | |t| |]|]; try done; intros _.
  simpl. by destruct (negb _).
Qed.

Lemma render_row_search_result_valid i r :
  is_search_result r = true →
  ∃ row, render_row i r = Normal row ∧ row_valid row = true.
Proof.
  destruct r as [| | | | | |fields]; try done. unfold is_search_result.
  intros [[[Ht Hu]%andb_true_iff Hs]%andb_true_iff Hm]%andb_true_iff.
  eexists. split; [reflexivity|]. unfold row_valid. simpl.
  by rewrite string_or_absent_heading, !string_or_absent_slot.
Qed.

Lemma render_rows_search_results n (results : list JsValue) :
  Forall (λ r, is_search_result r = true) results →
  ∃ rows,
    mapM (λ '(i, r), render_row i r) (imap (λ i r, (n + i, r)%nat) results)
      = Normal rows ∧
    forallb row_valid rows = true ∧ length rows = length results.
Proof.
  intros Hall. revert n.
  induction Hall as [|r results Hr _ IH]; intros n; [by exists []|].
  rewrite imap_from_cons, mapM_Completion_cons.
  destruct (render_row_search_result_valid n r Hr) as (row & -> & Hvalid).
  destruct (IH (S n)) as (rows & -> & Hrows & Hlen).
  exists (row :: rows). split; [done|]. simpl. by rewrite Hvalid, Hrows, Hlen.
Qed.

(** After a search for [cats] answered with a result and a [null], the
    result area cannot be rendered: reading [r.url] of the [null] throws. *)
Lemma render_null_result :
  (0 < length [JObj [(lit "title", JStr (lit "A"))]; JNull])%nat ∧
  render_area false true [JObj [(lit "title", JStr (lit "A"))]; JNull]
    = Throw TypeError ∧
  reachable None searched_null ∧
  loading (view searched_null) = false ∧
  results (view searched_null) = JArr [JObj [(lit "title", JStr (lit "A"))]; JNull] ∧
  render (view searched_null) = Some (Throw TypeError).
Proof.
  split; [simpl; lia|]. split; [reflexivity|].
  split; [apply reachable_run|]. by repeat split.
Qed.

(** C7, as the code has it: which rendering the result area shows is a
    function of [loading], [hasSearched] and [results.length], the one of
    the specification's table, and at most one of the three is shown; while
    loading it is the skeleton list with its six rows, after a search
    without results the message, and with results the list of their rows,
    which is rendered for every array of search results; rendering throws
    when a result is [null] or [undefined] or when a row holds an object in
    a child position. *)
Theorem render_area_visual_state loading hasSearched results :
  (∀ blocks,
     render_area loading hasSearched results = Normal blocks →
     omap visual_of blocks = spec_visual loading hasSearched (length results) ∧
     (length (omap visual_of blocks) ≤ 1)%nat) ∧
  (loading = true →
   render_area loading hasSearched results
     = Normal (when hasSearched Spacer ++ [SkeletonList [0; 1; 2; 3; 4; 5]%nat])) ∧
  (loading = false → hasSearched = true → length results = 0%nat →
   render_area loading hasSearched results = Normal [Spacer; EmptyMessage]) ∧
  (loading = false → (0 < length results)%nat →
   (∀ rows,
      render_rows results = Normal rows → forallb row_valid rows = true →
      render_area loading hasSearched results
        = Normal (when hasSearched Spacer ++ [ResultList rows])) ∧
   (Forall (λ r, is_search_result r = true) results →
    ∃ rows,
      render_rows results = Normal rows ∧ forallb row_valid rows = true ∧
      length rows = length results) ∧
   (Exists (λ r, is_nullish r = true) results →
    render_area loading hasSearched results = Throw TypeError) ∧
   (∀ rows,
      render_rows results = Normal rows → forallb row_valid rows = false →
      render_area loading hasSearched results
        = Throw (Error "Objects are not valid as a React child"))).
Proof.
  unfold render_area. split; [|split; [|split]].
  - intros blocks Hblocks.
    assert (omap visual_of blocks = spec_visual loading hasSearched (length results))
      as Hspec; [|split; [done|rewrite Hspec; apply spec_visual_exclusive]].
    destruct loading.
    { rewrite render_main_loading, bind_Normal in Hblocks.
      apply reconcile_Normal in Hblocks as ->. by destruct hasSearched. }
    destruct results as [|r results].
    { rewrite render_main_empty, bind_Normal in Hblocks.
      apply reconcile_Normal in Hblocks as ->. by destruct hasSearched. }
    rewrite render_main_populated in Hblocks.
    destruct (render_rows (r :: results)) as [rows|e]; [|done].
    rewrite !bind_Normal in Hblocks.
    apply reconcile_Normal in Hblocks as ->. by destruct hasSearched.
  - intros ->. rewrite render_main_loading, bind_Normal. by destruct hasSearched.
  - intros -> -> Hlen. destruct results; [|done].
    by rewrite render_main_empty, bind_Normal.
  - intros -> Hlen. destruct results as [|r results]; [simpl in Hlen; lia|].
    rewrite render_main_populated. split; [|split; [|split]].
    + intros rows -> Hvalid. by rewrite !bind_Normal, reconcile_list, Hvalid.
    + intros Hall. apply (render_rows_search_results 0 _ Hall).
    + intros Hnull.
      destruct (render_rows_from 0 (r :: results)) as [Hthrow _].
      assert (render_rows (r :: results) = Throw TypeError) as ->
        by exact (Hthrow Hnull).
      done.
    + intros rows -> Hvalid. by rewrite !bind_Normal, reconcile_list, Hvalid.
Qed.

Lemma render_area_visual_state_witness :
  (0 < length [JObj result_A])%nat ∧
  Forall (λ r, is_search_result r = true) [JObj result_A] ∧
  (∃ rows, render_rows [JObj result_A] = Normal rows ∧
           forallb row_valid rows = true ∧
           length rows = length [JObj result_A] ∧
           render_area false true [JObj result_A]
             = Normal (when true Spacer ++ [ResultList rows])) ∧
  render_area true true [JObj result_A]
    = Normal (when true Spacer ++ [SkeletonList [0; 1; 2; 3; 4; 5]%nat]) ∧
  render_area false true [] = Normal [Spacer; EmptyMessage].
Proof.
  assert (0 < length [JObj result_A])%nat as Hlen by (simpl; lia).
  assert (Forall (λ r, is_search_result r = true) [JObj result_A]) as Hall
    by (repeat constructor).
  split; [exact Hlen|]. split; [exact Hall|]. split; [|split].
  - destruct (render_area_visual_state false true [JObj result_A])
      as (_ & _ & _ & Hlist).
    destruct (Hlist eq_refl Hlen) as (Hshow & Hrows & _).
    destruct (Hrows Hall) as (rows & Hr & Hvalid & Hl).
    exists rows. split; [exact Hr|]. split; [exact Hvalid|]. split; [exact Hl|].
    exact (Hshow rows Hr Hvalid).
  - destruct (render_area_visual_state true true [JObj result_A])
      as (_ & Hloading & _).
    exact (Hloading eq_refl).
  - destruct (render_area_visual_state false true []) as (_ & _ & Hempty & _).
    exact (Hempty eq_refl eq_refl eq_refl).
Defined.

(** A search result with a title, a URL and a snippet renders as one row. *)
Example render_area_result_A :
  render_area false true [JObj result_A]
    = Normal [Spacer;
              ResultList
                [ {| row_key := 0;
                     row_href := JStr (lit "http://a");
                     row_heading := JStr (lit "A");
                     row_url := Paragraph UrlLine (JStr (lit "http://a"));
                     row_snippet := Paragraph Snippet (JStr (lit "s"));
                     row_summary := Value JUndefined |} ]].
Proof. reflexivity. Qed.

(** ** The search view *)

Section view_further.
Variable API_BASE : option jsstring.
Implicit Types (a : App) (v : ViewState) (e : Event).



(** X12: a submission starts a search exactly when the query holds a code
    unit that is not white space; it then starts one call, with the query
    as typed. *)
Theorem handleSearch_start_calls v :
  ((handleSearch_start v).2 = [query v] ↔
   Exists (λ c, is_white_space c = false) (query v)) ∧
  ((handleSearch_start v).2 = [] ↔
   Forall (λ c, is_white_space c = true) (query v)).
Proof.
  assert (Exists (λ c, is_white_space c = false) (query v) ↔
          ¬ Forall (λ c, is_white_space c = true) (query v)) as Hex.
  { rewrite <- Exists_Forall_neg.
    - split; apply Exists_impl; intros c; by destruct (is_white_space c).
    - intros c. destruct (is_white_space c); [by left | by right]. }
  rewrite Hex, <- trim_blank.
  destruct (decide (trim (query v) = [])) as [Hblank|Hfull].
  - rewrite handleSearch_start_blank by done. simpl. split; split; done.
  - rewrite handleSearch_start_nonblank by done. simpl. split; split; done.
Qed.

Lemma loading_accounted_step a e :
  loading_accounted a → loading_accounted (handle API_BASE e a).
Proof.
  unfold loading_accounted. intros [Hload Hcalls].
  destruct e as [value|key| |i fetch]; simpl.
  - done.
  - unfold clear. by destruct (jsstring_eqb _ _).
  - unfold handleSearch_start. destruct (negb _); simpl.
    + by rewrite app_nil_r.
    + split; [|done]. intros _. by destruct (in_flight a).
  - destruct (in_flight a !! i) as [q|] eqn:Hi; [|done].
    destruct (searchQuery_resolves API_BASE fetch q) as [data ->]. simpl.
    split; [done|]. intros _. apply Hcalls. intros Hnil. by rewrite Hnil in Hi.
Qed.

Lemma reachable_accounted a : reachable API_BASE a → loading_accounted a.
Proof.
  revert a. apply reachable_ind; [done|].
  intros a e _. apply loading_accounted_step.
Qed.

(** X13: in every reachable state, while [loading] is true a call is in
    flight, and while a call is in flight [hasSearched] is true. *)
Theorem reachable_loading_accounted a :
  reachable API_BASE a →
  (loading (view a) = true → in_flight a ≠ []) ∧
  (in_flight a ≠ [] → hasSearched (view a) = true).
Proof. intros Ha. exact (reachable_accounted a Ha). Qed.

(** X14: when one of several calls in flight settles, [loading] becomes
    false although the others are still in flight. *)
Theorem settle_clears_loading_early a i fetch q :
  in_flight a !! i = Some q →
  (2 ≤ length (in_flight a))%nat →
  loading (view (handle API_BASE (Settle i fetch) a)) = false ∧
  length (in_flight (handle API_BASE (Settle i fetch) a))
    = pred (length (in_flight a)) ∧
  in_flight (handle API_BASE (Settle i fetch) a) ≠ [].
Proof.
  intros Hi Hlen. simpl. rewrite Hi.
  destruct (searchQuery_resolves API_BASE fetch q) as [data ->]. simpl.
  assert (length (delete i (in_flight a)) = pred (length (in_flight a))) as Hdel.
  { rewrite length_delete by by eexists. lia. }
  split; [done|]. split; [done|].
  intros Hnil. rewrite Hnil in Hdel. simpl in Hdel. lia.
Qed.

(** X15: of two calls in flight, the one that settles last decides
    [results]: when the call started later settles first and the one
    started earlier afterwards, the view is left with what the earlier
    call resolved with. *)
Theorem last_settled_wins a i j qi qj fetch_i fetch_j :
  (i < j)%nat →
  in_flight a !! i = Some qi →
  in_flight a !! j = Some qj →
  ∃ data,
    searchQuery API_BASE fetch_i qi = Resolved data ∧
    results (view (handle API_BASE (Settle i fetch_i)
                     (handle API_BASE (Settle j fetch_j) a)))
      = (if isArray data then data else JArr []) ∧
    loading (view (handle API_BASE (Settle i fetch_i)
                     (handle API_BASE (Settle j fetch_j) a))) = false.
Proof.
  intros Hij Hi Hj.
  destruct (searchQuery_resolves API_BASE fetch_i qi) as [data Hd].
  exists data. split; [done|].
  assert (in_flight (handle API_BASE (Settle j fetch_j) a) !! i = Some qi) as Hi'.
  { simpl. rewrite Hj. simpl. by rewrite list_lookup_delete_lt. }
  revert Hi'. generalize (handle API_BASE (Settle j fetch_j) a).
  intros a' Hi'. simpl. by rewrite Hi', Hd.
Qed.

Lemma change_or_keydown_step a e :
  is_change_or_keydown e = true →
  results (view (handle API_BASE e a)) = results (view a) ∧
  loading (view (handle API_BASE e a)) = loading (view a) ∧
  hasSearched (view (handle API_BASE e a)) = hasSearched (view a) ∧
  in_flight (handle API_BASE e a) = in_flight a.
Proof.
  destruct e as [value|key| |i fetch]; try done; intros _; simpl.
  unfold clear. by destruct (jsstring_eqb _ _).
Qed.

(** X16: the [onChange] handler of the field and the [keydown] listener
    of the window never search: through any sequence of those two events
    no call is started, and [results], [loading], [hasSearched] and the
    rendered result area stay as they were. Only the submission of the
    form, which Enter in the field also triggers, starts a search. *)
Theorem change_and_keydown_never_search events a :
  Forall (λ e, is_change_or_keydown e = true) events →
  in_flight (run API_BASE events a) = in_flight a ∧
  results (view (run API_BASE events a)) = results (view a) ∧
  loading (view (run API_BASE events a)) = loading (view a) ∧
  hasSearched (view (run API_BASE events a)) = hasSearched (view a) ∧
  render (view (run API_BASE events a)) = render (view a).
Proof.
  intros Hev. revert a.
  induction Hev as [|e events He _ IH]; intros a; [done|].
  destruct (change_or_keydown_step a e He) as (Hr & Hl & Hs & Hf).
  destruct (IH (handle API_BASE e a)) as (IHf & IHr & IHl & IHs & IHrender).
  change (run API_BASE (e :: events) a)
    with (run API_BASE events (handle API_BASE e a)).
  rewrite IHf, IHr, IHl, IHs, IHrender.
  repeat split; try done. unfold render. by rewrite Hr, Hl, Hs.
Qed.

(** X17: Escape followed by a submission is Escape alone: the field is
    empty, so the submission does nothing. *)
Theorem escape_then_submit a :
  handle API_BASE Submit (handle API_BASE (KeyDown (lit "Escape")) a)
    = handle API_BASE (KeyDown (lit "Escape")) a.
Proof.
  unfold handle at 2 3. unfold clear.
  assert (jsstring_eqb (lit "Escape") (lit "Escape") = true) as ->
    by (by apply bool_decide_eq_true).
  simpl. by rewrite app_nil_r.
Qed.

(** X18: when a call settles with nothing to show (the empty array, or a
    value that is not an array, as after any swallowed error), the result
    area is the message alone, whatever results were shown before. *)
Theorem settle_without_results_shows_message a i fetch q data :
  reachable API_BASE a →
  in_flight a !! i = Some q →
  searchQuery API_BASE fetch q = Resolved data →
  data = JArr [] ∨ isArray data = false →
  render (view (handle API_BASE (Settle i fetch) a))
    = Some (Normal [Spacer; EmptyMessage]).
Proof.
  intros Ha Hi Hd Hdata.
  destruct (reachable_accounted a Ha) as [_ Hcalls].
  assert (hasSearched (view a) = true) as Hs.
  { apply Hcalls. intros Hnil. by rewrite Hnil in Hi. }
  simpl. rewrite Hi, Hd. unfold render. simpl.
  assert ((if isArray data then data else JArr []) = JArr []) as ->.
  { destruct Hdata as [-> | ->]; done. }
  unfold render_area. by rewrite render_main_empty, bind_Normal, Hs.
Qed.

(** X19: in every reachable state [results] is an array and the result
    area is rendered from it: before the first search it is empty; while
    loading it is the spacer and the skeleton list, and rendering cannot
    throw; and whenever rendering completes after a search, its first child
    is the spacer. *)
Theorem render_reachable a :
  reachable API_BASE a →
  ∃ c,
    render (view a) = Some c ∧
    (hasSearched (view a) = false → c = Normal []) ∧
    (loading (view a) = true →
     c = Normal [Spacer; SkeletonList [0; 1; 2; 3; 4; 5]%nat]) ∧
    (∀ blocks, c = Normal blocks → hasSearched (view a) = true →
               list.head blocks = Some Spacer).
Proof.
  intros Ha.
  pose proof (reachable_fresh_or_searched API_BASE a Ha) as Hfresh.
  destruct (reachable_accounted a Ha) as [Hload Hcalls].
  assert (isArray (results (view a)) = true) as Harr.
  { clear Hfresh Hload Hcalls. revert a Ha. apply reachable_ind; [done|].
    intros ? ? _. apply isArray_step. }
  unfold render. destruct (results (view a)) as [| | | | |items|] eqn:Hres; try done.
  eexists. split; [done|]. unfold render_area. split; [|split].
  - intros Hs. destruct (Hfresh Hs) as [Hr Hnil].
    rewrite Hres in Hr. injection Hr as ->. rewrite Hs.
    destruct (loading (view a)) eqn:Hl; [by destruct (Hload eq_refl)|].
    by rewrite render_main_empty.
  - intros Hl. rewrite Hl, render_main_loading, bind_Normal.
    by rewrite (Hcalls (Hload Hl)).
  - intros blocks Hblocks Hs. rewrite Hs in Hblocks.
    destruct (loading (view a)).
    { rewrite render_main_loading, bind_Normal in Hblocks.
      by apply reconcile_Normal in Hblocks as ->. }
    destruct items as [|r items].
    { rewrite render_main_empty, bind_Normal in Hblocks.
      by apply reconcile_Normal in Hblocks as ->. }
    rewrite render_main_populated in Hblocks.
    destruct (render_rows (r :: items)) as [rows|e]; [|done].
    rewrite !bind_Normal in Hblocks.
    by apply reconcile_Normal in Hblocks as ->.
Qed.

(** X22: when a call settles with an array that holds a [null] or an
    [undefined], the next rendering of the result area throws a
    [TypeError]: the callback of [results.map] reads [r.url] of it. *)
Theorem settle_with_null_result_throws a i fetch q items :
  in_flight a !! i = Some q →
  searchQuery API_BASE fetch q = Resolved (JArr items) →
  Exists (λ r, is_nullish r = true) items →
  render (view (handle API_BASE (Settle i fetch) a)) = Some (Throw TypeError).
Proof.
  intros Hi Hd Hnull. simpl. rewrite Hi, Hd. unfold render, render_area. simpl.
  destruct items as [|r items]; [by inversion Hnull|].
  rewrite render_main_populated.
  destruct (render_rows_from 0 (r :: items)) as [Hthrow _].
  assert (render_rows (r :: items) = Throw TypeError) as ->
    by exact (Hthrow Hnull).
  done.
Qed.
End view_further.

Lemma filter_other_listeners (f : nat) (listeners : list nat) :
  f ∉ listeners → filter (λ g, g ≠ f) listeners = listeners.
Proof.
  induction listeners as [|g listeners IH]; [done|].
  intros Hf. apply not_elem_of_cons in Hf as [Hne Hf].
  rewrite filter_cons_True by done. by rewrite IH.
Qed.

(** X20: a submission of a non-blank query requests the query as typed,
    not the trimmed one: the one URL requested decodes to the whole query,
    and a leading space is sent as [%20]. A blank query requests nothing. *)
Theorem submit_requests_query_as_typed (API_BASE : option jsstring) (v : ViewState) :
  trim (query v) ≠ [] →
  wf_jsstring (query v) → isWellFormed (query v) = true →
  ∃ enc,
    submit_requests API_BASE v
      = [API_BASE_text API_BASE ++ lit "/search?q=" ++ enc] ∧
    decodeURIComponent enc = Normal (query v) ∧
    (∀ rest, query v = 32 :: rest → ∃ enc', enc = lit "%20" ++ enc').
Proof.
  intros Hq Hwf Hwell.
  pose proof (encodeURIComponent_isWellFormed (query v)) as Henc.
  rewrite Hwell in Henc. destruct Henc as [enc Henc].
  exists enc. unfold submit_requests.
  rewrite handleSearch_start_nonblank by done.
  split; [|split].
  - simpl. unfold searchQuery_requests, request_url. by rewrite Henc.
  - by apply decodeURIComponent_encodeURIComponent.
  - intros rest Hrest. rewrite Hrest in Henc. simpl in Henc.
    apply bind_Normal_inv in Henc as (r & _ & Hr).
    apply Normal_inj in Hr. by exists r.
Qed.

(** X21: the cleanup of the [keydown] effect removes the listener the
    effect registered and leaves the others; so after mounting, cleaning
    up and mounting again, as under [React.StrictMode], exactly the second
    function is registered besides what was there before. *)
Theorem keydown_effect_balanced (clear1 clear2 : nat) (listeners : list nat) :
  clear1 ∉ listeners → clear2 ∉ listeners →
  (keydown_effect clear1 listeners).1 = listeners ++ [clear1] ∧
  (keydown_effect clear1 listeners).2 (keydown_effect clear1 listeners).1
    = listeners ∧
  (keydown_effect clear2
     ((keydown_effect clear1 listeners).2 (keydown_effect clear1 listeners).1)).1
    = listeners ++ [clear2].
Proof.
  intros H1 H2.
  assert ((keydown_effect clear1 listeners).1 = listeners ++ [clear1]) as Hadd.
  { unfold keydown_effect, addEventListener. simpl.
    by rewrite bool_decide_eq_false_2. }
  assert ((keydown_effect clear1 listeners).2 (listeners ++ [clear1]) = listeners)
    as Hremove.
  { unfold keydown_effect, removeEventListener. simpl.
    rewrite list.filter_app, filter_other_listeners by done.
    rewrite filter_cons_False by (intros ?; done).
    by rewrite app_nil_r. }
  rewrite Hadd, Hremove. split; [done|]. split; [done|].
  unfold keydown_effect, addEventListener. simpl.
  by rewrite bool_decide_eq_false_2.
Qed.

(** ** Concrete runs of the further properties *)

Lemma request_url_unescaped_witness :
  Forall (λ c, is_unescaped c = true) (lit "cats") ∧
  request_url None (lit "cats") = Normal (lit "undefined/search?q=cats").
Proof.
  assert (Forall (λ c, is_unescaped c = true) (lit "cats")) as Hq
    by (repeat constructor).
  split; [exact Hq|].
  exact (request_url_unescaped None (lit "cats") Hq).
Defined.

Lemma request_url_injective_witness :
  wf_jsstring (lit "a&b") ∧
  request_url None (lit "a&b") = Normal (lit "undefined/search?q=a%26b") ∧
  lit "a&b" = lit "a&b".
Proof.
  assert (wf_jsstring (lit "a&b")) as Hwf by (repeat constructor).
  split; [exact Hwf|]. split; [reflexivity|].
  exact (request_url_injective None (lit "a&b") (lit "a&b")
           (lit "undefined/search?q=a%26b") Hwf Hwf eq_refl eq_refl).
Defined.

Lemma encodeURIComponent_length_witness :
  wf_jsstring (lit "a&b") ∧
  encodeURIComponent (lit "a&b") = Normal (lit "a%26b") ∧
  (length (lit "a&b") ≤ length (lit "a%26b") ≤ 9 * length (lit "a&b"))%nat.
Proof.
  assert (wf_jsstring (lit "a&b")) as Hwf by (repeat constructor).
  split; [exact Hwf|]. split; [reflexivity|].
  exact (encodeURIComponent_length (lit "a&b") (lit "a%26b") Hwf eq_refl).
Defined.

Lemma searchQuery_console_response_witness :
  request_url None (lit "cats") = Normal (lit "undefined/search?q=cats") ∧
  fails (lit "undefined/search?q=cats") = FetchResponse 500 None ∧
  LogStatus 500 ∈ (searchQuery_console None fails (lit "cats")).1 ∧
  (∀ data, LogData data ∈ (searchQuery_console None fails (lit "cats")).1 ↔
           response_ok 500 = true ∧ None = Some data).
Proof.
  split; [reflexivity|]. split; [reflexivity|].
  exact (searchQuery_console_response None fails (lit "cats")
           (lit "undefined/search?q=cats") 500 None eq_refl eq_refl).
Defined.

Lemma render_row_search_result_witness :
  string_or_absent (lit "title") result_A = true ∧
  string_or_absent (lit "url") result_A = true ∧
  string_or_absent (lit "snippet") result_A = true ∧
  string_or_absent (lit "summary") result_A = true ∧
  ∃ row,
    render_row 0 (JObj result_A) = Normal row ∧
    ((∃ s, s ≠ [] ∧ own_property (lit "title") result_A = Some (JStr s) ∧
           row_heading row = JStr s) ∨
     (row_heading row = JStr (lit "Untitled") ∧
      (own_property (lit "title") result_A = None ∨
       own_property (lit "title") result_A = Some (JStr [])))) ∧
    shows_field result_A UrlLine (lit "url") (row_url row) ∧
    shows_field result_A Snippet (lit "snippet") (row_snippet row) ∧
    shows_field result_A Summary (lit "summary") (row_summary row).
Proof.
  split; [reflexivity|]. split; [reflexivity|].
  split; [reflexivity|]. split; [reflexivity|].
  exact (render_row_search_result 0 result_A eq_refl eq_refl eq_refl eq_refl).
Defined.

Lemma render_row_falsy_number_witness :
  truthy (JNum 0%float) = false ∧
  ∃ row,
    render_row 0 (JObj [(lit "snippet", JNum 0%float)]) = Normal row ∧
    renders_nothing (JNum 0%float) = false ∧
    (own_property (lit "url") [(lit "snippet", JNum 0%float)]
       = Some (JNum 0%float) →
     row_url row = Value (JNum 0%float)) ∧
    (own_property (lit "snippet") [(lit "snippet", JNum 0%float)]
       = Some (JNum 0%float) →
     row_snippet row = Value (JNum 0%float)) ∧
    (own_property (lit "summary") [(lit "snippet", JNum 0%float)]
       = Some (JNum 0%float) →
     row_summary row = Value (JNum 0%float)).
Proof.
  split; [reflexivity|].
  exact (render_row_falsy_number 0 [(lit "snippet", JNum 0%float)] 0%float eq_refl).
Defined.


Lemma reachable_loading_accounted_witness :
  reachable None two_in_flight ∧
  (loading (view two_in_flight) = true → in_flight two_in_flight ≠ []) ∧
  (in_flight two_in_flight ≠ [] → hasSearched (view two_in_flight) = true).
Proof.
  assert (reachable None two_in_flight) as Hr by apply reachable_run.
  split; [exact Hr|].
  exact (reachable_loading_accounted None two_in_flight Hr).
Defined.

Lemma two_in_flight_length : (2 ≤ length (in_flight two_in_flight))%nat.
Proof. simpl. lia. Qed.

Lemma settle_clears_loading_early_witness :
  in_flight two_in_flight !! 0%nat = Some (lit "cats") ∧
  (2 ≤ length (in_flight two_in_flight))%nat ∧
  loading (view (handle None (Settle 0 (answers one_result)) two_in_flight)) = false ∧
  length (in_flight (handle None (Settle 0 (answers one_result)) two_in_flight))
    = pred (length (in_flight two_in_flight)) ∧
  in_flight (handle None (Settle 0 (answers one_result)) two_in_flight) ≠ [].
Proof.
  split; [reflexivity|]. split; [exact two_in_flight_length|].
  exact (settle_clears_loading_early None two_in_flight 0 (answers one_result)
           (lit "cats") eq_refl two_in_flight_length).
Defined.

Lemma zero_lt_one : (0 < 1)%nat.
Proof. lia. Qed.

Lemma last_settled_wins_witness :
  (0 < 1)%nat ∧
  in_flight two_in_flight !! 0%nat = Some (lit "cats") ∧
  in_flight two_in_flight !! 1%nat = Some (lit "dogs") ∧
  ∃ data,
    searchQuery None (answers one_result) (lit "cats") = Resolved data ∧
    results (view (handle None (Settle 0 (answers one_result))
                     (handle None (Settle 1 fails) two_in_flight)))
      = (if isArray data then data else JArr []) ∧
    loading (view (handle None (Settle 0 (answers one_result))
                     (handle None (Settle 1 fails) two_in_flight))) = false.
Proof.
  split; [exact zero_lt_one|]. split; [reflexivity|]. split; [reflexivity|].
  exact (last_settled_wins None two_in_flight 0 1 (lit "cats") (lit "dogs")
           (answers one_result) fails zero_lt_one eq_refl eq_refl).
Defined.

Lemma change_and_keydown_never_search_witness :
  Forall (λ e, is_change_or_keydown e = true)
    [Change (lit "dogs"); KeyDown (lit "Escape"); KeyDown (lit "a")] ∧
  in_flight (run None [Change (lit "dogs"); KeyDown (lit "Escape");
                       KeyDown (lit "a")] searched_cats)
    = in_flight searched_cats ∧
  results (view (run None [Change (lit "dogs"); KeyDown (lit "Escape");
                           KeyDown (lit "a")] searched_cats))
    = results (view searched_cats) ∧
  loading (view (run None [Change (lit "dogs"); KeyDown (lit "Escape");
                           KeyDown (lit "a")] searched_cats))
    = loading (view searched_cats) ∧
  hasSearched (view (run None [Change (lit "dogs"); KeyDown (lit "Escape");
                               KeyDown (lit "a")] searched_cats))
    = hasSearched (view searched_cats) ∧
  render (view (run None [Change (lit "dogs"); KeyDown (lit "Escape");
                          KeyDown (lit "a")] searched_cats))
    = render (view searched_cats).
Proof.
  assert (Forall (λ e, is_change_or_keydown e = true)
            [Change (lit "dogs"); KeyDown (lit "Escape"); KeyDown (lit "a")])
    as Hev by (repeat constructor).
  split; [exact Hev|].
  exact (change_and_keydown_never_search None _ searched_cats Hev).
Defined.

Lemma settle_without_results_shows_message_witness :
  reachable None searching_dogs ∧
  results (view searching_dogs) = JArr [JObj [(lit "title", JStr (lit "A"))]] ∧
  in_flight searching_dogs !! 0%nat = Some (lit "dogs") ∧
  searchQuery None fails (lit "dogs") = Resolved (JArr []) ∧
  render (view (handle None (Settle 0 fails) searching_dogs))
    = Some (Normal [Spacer; EmptyMessage]).
Proof.
  assert (reachable None searching_dogs) as Hr by apply reachable_run.
  split; [exact Hr|]. split; [reflexivity|]. split; [reflexivity|].
  split; [reflexivity|].
  exact (settle_without_results_shows_message None searching_dogs 0 fails
           (lit "dogs") (JArr []) Hr eq_refl eq_refl (or_introl eq_refl)).
Defined.

Lemma render_reachable_witness :
  reachable None two_in_flight ∧
  ∃ c,
    render (view two_in_flight) = Some c ∧
    (hasSearched (view two_in_flight) = false → c = Normal []) ∧
    (loading (view two_in_flight) = true →
     c = Normal [Spacer; SkeletonList [0; 1; 2; 3; 4; 5]%nat]) ∧
    (∀ blocks, c = Normal blocks → hasSearched (view two_in_flight) = true →
               list.head blocks = Some Spacer).
Proof.
  assert (reachable None two_in_flight) as Hr by apply reachable_run.
  split; [exact Hr|].
  exact (render_reachable None two_in_flight Hr).
Defined.

Lemma null_result_nullish :
  Exists (λ r, is_nullish r = true) [JObj [(lit "title", JStr (lit "A"))]; JNull].
Proof. apply Exists_cons_tl, Exists_cons_hd. reflexivity. Qed.

Lemma settle_with_null_result_throws_witness :
  in_flight (handle None Submit typed_cats) !! 0%nat = Some (lit "cats") ∧
  searchQuery None (answers null_result) (lit "cats")
    = Resolved (JArr [JObj [(lit "title", JStr (lit "A"))]; JNull]) ∧
  Exists (λ r, is_nullish r = true) [JObj [(lit "title", JStr (lit "A"))]; JNull] ∧
  render (view (handle None (Settle 0 (answers null_result))
                  (handle None Submit typed_cats)))
    = Some (Throw TypeError).
Proof.
  split; [reflexivity|]. split; [reflexivity|]. split; [exact null_result_nullish|].
  exact (settle_with_null_result_throws None (handle None Submit typed_cats) 0
           (answers null_result) (lit "cats") _ eq_refl eq_refl null_result_nullish).
Defined.

Lemma trim_spaced_cats : trim (query typed_spaced_cats) ≠ [].
Proof. discriminate. Qed.

Lemma submit_requests_query_as_typed_witness :
  trim (query typed_spaced_cats) = lit "cats" ∧
  wf_jsstring (query typed_spaced_cats) ∧
  isWellFormed (query typed_spaced_cats) = true ∧
  ∃ enc,
    submit_requests None typed_spaced_cats
      = [API_BASE_text None ++ lit "/search?q=" ++ enc] ∧
    decodeURIComponent enc = Normal (lit " cats ") ∧
    (∀ rest, query typed_spaced_cats = 32 :: rest →
             ∃ enc', enc = lit "%20" ++ enc').
Proof.
  assert (wf_jsstring (query typed_spaced_cats)) as Hwf by (repeat constructor).
  split; [reflexivity|]. split; [exact Hwf|]. split; [reflexivity|].
  exact (submit_requests_query_as_typed None typed_spaced_cats
           trim_spaced_cats Hwf eq_refl).
Defined.

Lemma fresh_listeners : (7%nat ∉ [3%nat]) ∧ (8%nat ∉ [3%nat]).
Proof. split; intros H%list_elem_of_In; simpl in H; lia. Qed.

Lemma keydown_effect_balanced_witness :
  (keydown_effect 7 [3%nat]).1 = [3; 7]%nat ∧
  (keydown_effect 7 [3%nat]).2 (keydown_effect 7 [3%nat]).1 = [3%nat] ∧
  (keydown_effect 8
     ((keydown_effect 7 [3%nat]).2 (keydown_effect 7 [3%nat]).1)).1
    = [3; 8]%nat.
Proof.
  exact (keydown_effect_balanced 7 8 [3%nat]
           (proj1 fresh_listeners) (proj2 fresh_listeners)).
Defined.
